(** * Room membership and message fan-out of the chat server (server.js)

    A shallow embedding of the Socket.io event handlers of [server.js]
    ([join], [chatMessage], [typing], [disconnect]) over the three in-memory
    Maps [users], [rooms] and [messages], together with the part of the
    Socket.io room adapter the handlers call ([socket.join], [socket.emit],
    [socket.to(room).emit], [io.to(room).emit]).

    Conventions of the model.
    - A JavaScript string is a [string]; every [ascii] stands for the UTF-16
      code unit of the same number, so the model covers the strings whose
      code units are below 256 and [String.length] is [.length].
    - A payload field is an [option string]: [None] is an absent
      ([undefined]) field, [Some s] a string.  Payloads are objects; a
      payload that is not an object is outside the model.
    - [uuidv4()] and [moment().format(..)] are inputs of the handlers.
    - [console.log] and [console.error] are not modelled. *)

From Stdlib Require Import Ascii String.
From stdpp Require Import gmap strings list fin_maps pretty.

(** ** JavaScript strings *)

(** The white space and line terminator code units below 256, as removed by
    [String.prototype.trim]: TAB, LF, VT, FF, CR, SPACE and NBSP. *)
Definition is_js_space (a : ascii) : bool :=
  match a with
  | "009" | "010" | "011" | "012" | "013" | " " | "160" => true
  | _ => false
  end%char.

Fixpoint trim_start (s : string) : string :=
  match s with
  | String a s' => if is_js_space a then trim_start s' else s
  | EmptyString => EmptyString
  end.

Definition trim_end (s : string) : string :=
  String.rev (trim_start (String.rev s)).

(** [s.trim()] *)
Definition trim (s : string) : string := trim_end (trim_start s).

(** [!s] for a string [s]: only the empty string is falsy. *)
Definition falsy (s : string) : bool := bool_decide (s = "").

(** [Map.prototype.get] with a key read from a payload.  The Maps of the
    server are only ever [set] under a string key, so an absent key finds
    nothing. *)
Definition map_get {V : Type} (m : gmap string V) (k : option string) : option V :=
  k ≫= (m !!.).

(** ** Data model *)

(** [const MAX_MESSAGE_LENGTH = 1000;] *)
Definition MAX_MESSAGE_LENGTH : nat := 1000.

(** The [user] object built by the [join] handler. *)
Record user : Type := mkUser {
  user_id : string;
  user_username : string;
  user_room : string;
  user_socketId : string
}.

(** The [user: { id, username }] field of a message. *)
Record author : Type := mkAuthor {
  author_id : string;
  author_username : string
}.

Inductive message_type : Type := type_message | type_system.

Record message : Type := mkMessage {
  msg_id : string;
  msg_user : author;
  msg_text : string;
  msg_timestamp : string;
  msg_type : message_type
}.

(** [{ username: 'System', id: 'system' }] *)
Definition system_author : author :=
  {| author_id := "system"; author_username := "System" |}.

(** Events sent to clients, with their payloads. *)
Inductive event : Type :=
| joined (u : user) (room : string) (messages : option (list message))
         (users : list (option user))
| userJoined (u : user) (m : message)
| newMessage (m : message)
| userTyping (userId username : string) (isTyping : bool)
| userLeft (userId username : string) (m : message)
| error (msg : string).

(** The three ways the handlers address an event. *)
Inductive target : Type :=
| ToSocket (socket_id : string)                          (* socket.emit *)
| ToRoomExcept (room : option string) (socket_id : string) (* socket.to(room).emit *)
| ToRoom (room : option string).                         (* io.to(room).emit *)

(** One call of [emit]: how it was addressed, what it carried and the
    sockets it reached, resolved when [emit] ran. *)
Record emission : Type := mkEmission {
  em_target : target;
  em_event : event;
  em_to : gset string
}.

#[global] Instance user_eq_dec : EqDecision user.
Proof. solve_decision. Defined.
#[global] Instance author_eq_dec : EqDecision author.
Proof. solve_decision. Defined.
#[global] Instance message_type_eq_dec : EqDecision message_type.
Proof. solve_decision. Defined.
#[global] Instance message_eq_dec : EqDecision message.
Proof. solve_decision. Defined.
#[global] Instance event_eq_dec : EqDecision event.
Proof. solve_decision. Defined.

(** ** State *)

(** [users], [rooms] and [messages] are the Maps of server.js.  A room's
    [Set] of socket ids is a duplicate-free list in insertion order.
    [sids] is the Socket.io adapter: the connected sockets, each with the
    Socket.io rooms it is in. *)
Record state : Type := mkState {
  users : gmap string user;
  rooms : gmap string (list string);
  messages : gmap string (list message);
  sids : gmap string (gset string)
}.

Definition init : state :=
  {| users := ∅; rooms := ∅; messages := ∅; sids := ∅ |}.

Definition with_users (f : gmap string user → gmap string user) (s : state) : state :=
  {| users := f (users s); rooms := rooms s; messages := messages s; sids := sids s |}.
Definition with_rooms (f : gmap string (list string) → gmap string (list string))
    (s : state) : state :=
  {| users := users s; rooms := f (rooms s); messages := messages s; sids := sids s |}.
Definition with_messages (f : gmap string (list message) → gmap string (list message))
    (s : state) : state :=
  {| users := users s; rooms := rooms s; messages := f (messages s); sids := sids s |}.
Definition with_sids (f : gmap string (gset string) → gmap string (gset string))
    (s : state) : state :=
  {| users := users s; rooms := rooms s; messages := messages s; sids := f (sids s) |}.

(** [Set.prototype.add] and [Set.prototype.delete] on an insertion-ordered set. *)
Definition set_add (x : string) (l : list string) : list string :=
  if bool_decide (x ∈ l) then l else l ++ [x].
Definition set_delete (x : string) (l : list string) : list string :=
  filter (λ y, y ≠ x) l.
Definition set_has (x : string) (l : list string) : bool := bool_decide (x ∈ l).

(** ** The Socket.io adapter *)

(** The connected sockets that are in Socket.io room [r]. *)
Definition room_sockets (a : gmap string (gset string)) (r : option string) : gset string :=
  match r with
  | Some r => dom (filter (λ kv, r ∈ kv.2) a)
  | None => ∅
  end.

Definition recipients (a : gmap string (gset string)) (t : target) : gset string :=
  match t with
  | ToSocket x => {[x]}
  | ToRoomExcept r x => room_sockets a r ∖ {[x]}
  | ToRoom r => room_sockets a r
  end.

(** The events a socket receives out of a list of emissions, in order. *)
Definition inbox (x : string) (out : list emission) : list event :=
  em_event <$> filter (λ e, x ∈ em_to e) out.

(** ** Handlers as state transformers that emit and may throw *)

Inductive outcome (A : Type) : Type :=
| Done (a : A) (s : state) (out : list emission)
| Thrown (s : state) (out : list emission).
Arguments Done {A} a s out.
Arguments Thrown {A} s out.

Definition M (A : Type) : Type := state → outcome A.

#[global] Instance M_ret : MRet M := λ A a s, Done a s [].
#[global] Instance M_bind : MBind M := λ A B f m s,
  match m s with
  | Done a s1 o1 =>
      match f a s1 with
      | Done b s2 o2 => Done b s2 (o1 ++ o2)
      | Thrown s2 o2 => Thrown s2 (o1 ++ o2)
      end
  | Thrown s1 o1 => Thrown s1 o1
  end.

(** A [TypeError] (or any other exception). *)
Definition throw {A : Type} : M A := λ s, Thrown s [].

(** [try { body } catch (error) { handler }] *)
Definition try_catch (body handler : M unit) : M unit := λ s,
  match body s with
  | Done a s1 o1 => Done a s1 o1
  | Thrown s1 o1 =>
      match handler s1 with
      | Done a s2 o2 => Done a s2 (o1 ++ o2)
      | Thrown s2 o2 => Thrown s2 (o1 ++ o2)
      end
  end.

Definition users_get (k : string) : M (option user) := λ s, Done (users s !! k) s [].
Definition users_set (k : string) (u : user) : M unit := λ s,
  Done tt (with_users <[k := u]> s) [].
Definition users_delete (k : string) : M unit := λ s,
  Done tt (with_users (delete k) s) [].
(** [Array.from(ids).map(id => users.get(id))] *)
Definition users_of (ids : list string) : M (list (option user)) := λ s,
  Done ((λ i, users s !! i) <$> ids) s [].

Definition rooms_has (k : string) : M bool := λ s,
  Done (if rooms s !! k is Some _ then true else false) s [].
Definition rooms_get (k : string) : M (option (list string)) := λ s,
  Done (rooms s !! k) s [].
(** [rooms.set(k, new Set())] *)
Definition rooms_set_new (k : string) : M unit := λ s,
  Done tt (with_rooms <[k := []]> s) [].
(** [rooms.get(k).add(x)]: a [TypeError] when [rooms.get(k)] is undefined. *)
Definition rooms_add (k x : string) : M unit := λ s,
  match rooms s !! k with
  | Some l => Done tt (with_rooms <[k := set_add x l]> s) []
  | None => throw s
  end.
(** [roomUsers.delete(x)] where [roomUsers] is the Set stored under [k]. *)
Definition rooms_delete (k x : string) : M unit := λ s,
  match rooms s !! k with
  | Some l => Done tt (with_rooms <[k := set_delete x l]> s) []
  | None => throw s
  end.
(** [Array.from(rooms.get(k))]: a [TypeError] when undefined. *)
Definition rooms_array (k : string) : M (list string) := λ s,
  match rooms s !! k with
  | Some l => Done l s []
  | None => throw s
  end.

Definition messages_has (k : string) : M bool := λ s,
  Done (if messages s !! k is Some _ then true else false) s [].
Definition messages_get (k : string) : M (option (list message)) := λ s,
  Done (messages s !! k) s [].
(** [messages.set(k, [])] *)
Definition messages_set_new (k : string) : M unit := λ s,
  Done tt (with_messages <[k := []]> s) [].
(** [messages.get(k).push(m)]: a [TypeError] when [messages.get(k)] is
    undefined. *)
Definition messages_push (k : option string) (m : message) : M unit := λ s,
  match k, map_get (messages s) k with
  | Some r, Some l => Done tt (with_messages <[r := l ++ [m]]> s) []
  | _, _ => throw s
  end.

(** [socket.join(room)] *)
Definition socket_join (x room : string) : M unit := λ s,
  Done tt (with_sids (alter (λ rs, rs ∪ {[room]}) x) s) [].

Definition emit (t : target) (e : event) : M unit := λ s,
  Done tt s [mkEmission t e (recipients (sids s) t)].

(** ** Payloads *)

(** [{ username, room }] *)
Record join_payload : Type := mkJoin {
  join_username : option string;
  join_room : option string
}.

(** [{ message, room }] *)
Record chat_payload : Type := mkChat {
  chat_message : option string;
  chat_room : option string
}.

(** [{ room, isTyping }] *)
Record typing_payload : Type := mkTyping {
  typing_room : option string;
  typing_isTyping : bool
}.

(** ** The event handlers of [io.on('connection', socket => ...)] *)

Definition system_message (id text now : string) : message :=
  {| msg_id := id; msg_user := system_author; msg_text := text;
     msg_timestamp := now; msg_type := type_system |}.

Definition welcome_message (id username now : string) : message :=
  system_message id (username +:+ " has joined the room") now.

Definition leave_message (id username now : string) : message :=
  system_message id (username +:+ " has left the room") now.

Definition chat_message_of (id : string) (u : user) (text now : string) : message :=
  {| msg_id := id;
     msg_user := {| author_id := user_id u; author_username := user_username u |};
     msg_text := trim text;
     msg_timestamp := now;
     msg_type := type_message |}.

(** The statements of the [join] handler after both validations. *)
Definition join_body (socket_id userId msgId now username room : string) : M unit :=
  let user := {| user_id := userId; user_username := username;
                 user_room := room; user_socketId := socket_id |} in
  users_set socket_id user ;;
  has ← rooms_has room;
  (if has : bool then mret tt else rooms_set_new room) ;;
  rooms_add room socket_id ;;
  hasm ← messages_has room;
  (if hasm : bool then mret tt else messages_set_new room) ;;
  socket_join socket_id room ;;
  let welcomeMessage := welcome_message msgId username now in
  messages_push (Some room) welcomeMessage ;;
  msgs ← messages_get room;
  ids ← rooms_array room;
  us ← users_of ids;
  emit (ToSocket socket_id) (joined user room msgs us) ;;
  emit (ToRoomExcept (Some room) socket_id) (userJoined user welcomeMessage).

(** [socket.on('join', ({ username, room }) => { ... })];
    [userId] and [msgId] are the two [uuidv4()] results, [now] the
    formatted time. *)
Definition on_join (socket_id userId msgId now : string) (p : join_payload) : M unit :=
  try_catch
    (match join_username p, join_room p with
     | Some username, Some room =>
         if falsy username || falsy room then
           emit (ToSocket socket_id) (error "Username and room are required")
         else if bool_decide (20 < String.length username) then
           emit (ToSocket socket_id) (error "Username too long (max 20 chars)")
         else join_body socket_id userId msgId now username room
     | _, _ =>
         emit (ToSocket socket_id) (error "Username and room are required")
     end)
    (emit (ToSocket socket_id) (error "Failed to join room")).

(** [socket.on('chatMessage', ({ message, room }) => { ... })] *)
Definition on_chatMessage (socket_id msgId now : string) (p : chat_payload) : M unit :=
  try_catch
    (user ← users_get socket_id;
     match user with
     | None => emit (ToSocket socket_id) (error "User not found")
     | Some user =>
         match chat_message p with
         | None => emit (ToSocket socket_id) (error "Message cannot be empty")
         | Some message =>
             if falsy message || bool_decide (trim message = "") then
               emit (ToSocket socket_id) (error "Message cannot be empty")
             else if bool_decide (MAX_MESSAGE_LENGTH < String.length message) then
               emit (ToSocket socket_id)
                 (error ("Message too long (max " +:+ pretty MAX_MESSAGE_LENGTH +:+ " chars)"))
             else
               let chatMessage := chat_message_of msgId user message now in
               messages_push (chat_room p) chatMessage ;;
               emit (ToRoom (chat_room p)) (newMessage chatMessage)
         end
     end)
    (emit (ToSocket socket_id) (error "Failed to send message")).

(** [socket.on('typing', ({ room, isTyping }) => { ... })] *)
Definition on_typing (socket_id : string) (p : typing_payload) : M unit :=
  user ← users_get socket_id;
  match user with
  | Some user =>
      emit (ToRoomExcept (typing_room p) socket_id)
        (userTyping (user_id user) (user_username user) (typing_isTyping p))
  | None => mret tt
  end.

(** [socket.on('disconnect', () => { ... })]; there is no [try] here, so a
    [TypeError] leaves the handler. *)
Definition on_disconnect (socket_id msgId now : string) : M unit :=
  user ← users_get socket_id;
  match user with
  | Some user =>
      let room := user_room user in
      roomUsers ← rooms_get room;
      (match roomUsers with
       | Some l =>
           if set_has socket_id l then
             rooms_delete room socket_id ;;
             let leaveMessage := leave_message msgId (user_username user) now in
             messages_push (Some room) leaveMessage ;;
             emit (ToRoomExcept (Some room) socket_id)
               (userLeft (user_id user) (user_username user) leaveMessage)
           else mret tt
       | None => mret tt
       end) ;;
      users_delete socket_id
  | None => mret tt
  end.

(** ** The transport *)

(** A new socket is in the Socket.io room named by its own id. *)
Definition socket_connect (x : string) : M unit := λ s,
  Done tt (with_sids <[x := {[x]}]> s) [].

(** Socket.io takes a closing socket out of all its rooms before it fires
    ['disconnect']. *)
Definition socket_leave_all (x : string) : M unit := λ s,
  Done tt (with_sids (delete x) s) [].

(** What a client (or the transport) can make the server do. *)
Inductive op : Type :=
| Connect (socket_id : string)
| Join (socket_id userId msgId now : string) (p : join_payload)
| ChatMessage (socket_id msgId now : string) (p : chat_payload)
| Typing (socket_id : string) (p : typing_payload)
| Disconnect (socket_id msgId now : string).

Definition dispatch (o : op) : M unit :=
  match o with
  | Connect x => socket_connect x
  | Join x userId msgId now p => on_join x userId msgId now p
  | ChatMessage x msgId now p => on_chatMessage x msgId now p
  | Typing x p => on_typing x p
  | Disconnect x msgId now => socket_leave_all x ;; on_disconnect x msgId now
  end.

(** Events are handled one after the other (Node's single thread). *)
Fixpoint run (ops : list op) : M unit :=
  match ops with
  | [] => mret tt
  | o :: ops' => dispatch o ;; run ops'
  end.

(** [messages.get(room) || []], the log as the REST endpoint reads it. *)
Definition room_log (s : state) (r : string) : list message :=
  default [] (messages s !! r).

(** The members of a room, [[]] when the room was never created. *)
Definition room_members (s : state) (r : string) : list string :=
  default [] (rooms s !! r).

Definition op_socket (o : op) : string :=
  match o with
  | Connect x | Join x _ _ _ _ | ChatMessage x _ _ _ | Typing x _
  | Disconnect x _ _ => x
  end.

(** A socket id is fresh when the state does not mention it. *)
Definition fresh (s : state) (x : string) : Prop :=
  sids s !! x = None ∧ users s !! x = None ∧
  map_Forall (λ _ l, x ∉ l) (rooms s).

(** What the transport can deliver in a state: a connection under a fresh
    id, or an event of a connected socket. *)
Definition enabled (s : state) (o : op) : Prop :=
  match o with
  | Connect x => fresh s x
  | _ => is_Some (sids s !! op_socket o)
  end.

#[global] Instance fresh_dec s x : Decision (fresh s x).
Proof. unfold fresh. apply _. Defined.
#[global] Instance enabled_dec s o : Decision (enabled s o).
Proof. destruct o; simpl; apply _. Defined.

(** The states of a running server. *)
Inductive reachable : state → Prop :=
| reachable_init : reachable init
| reachable_step s o s' out :
    reachable s → enabled s o → dispatch o s = Done tt s' out → reachable s'.

(** A trace the transport can produce from [s], as a check. *)
Fixpoint trace_ok (s : state) (ops : list op) : bool :=
  match ops with
  | [] => true
  | o :: ops' =>
      bool_decide (enabled s o) &&
      match dispatch o s with
      | Done _ s' _ => trace_ok s' ops'
      | Thrown _ _ => false
      end
  end.

(** The state after a trace, when no handler threw. *)
Definition state_after (ops : list op) (s : state) : option state :=
  match run ops s with
  | Done _ s' _ => Some s'
  | Thrown _ _ => None
  end.

Definition output_of {A : Type} (r : outcome A) : list emission :=
  match r with
  | Done _ _ out | Thrown _ out => out
  end.

(** ** Notions used by the statements *)

(** An [error] event sent with [socket.emit]: it reaches the socket [x] and
    no other. *)
Definition reports (x msg : string) : list emission :=
  [mkEmission (ToSocket x) (error msg) {[x]}].



(** The username and room of a [join] that passes both validations. *)
Definition join_accepted (p : join_payload) : option (string * string) :=
  match join_username p, join_room p with
  | Some u, Some r =>
      if bool_decide (u ≠ "" ∧ r ≠ "" ∧ String.length u ≤ 20) then Some (u, r) else None
  | _, _ => None
  end.

(** The text of a [chatMessage] that passes both validations. *)
Definition send_accepted (p : chat_payload) : option string :=
  match chat_message p with
  | Some t =>
      if bool_decide (trim t ≠ "" ∧ String.length t ≤ MAX_MESSAGE_LENGTH) then Some t
      else None
  | None => None
  end.

(** The trimmed text of a send is empty; an absent text counts as empty. *)
Definition text_blank (p : chat_payload) : Prop :=
  match chat_message p with
  | Some t => trim t = ""
  | None => True
  end.

(** The text of a send is longer than [MAX_MESSAGE_LENGTH]. *)
Definition text_too_long (p : chat_payload) : Prop :=
  match chat_message p with
  | Some t => MAX_MESSAGE_LENGTH < String.length t
  | None => False
  end.

(** The state a [join] that passes validation leaves. *)
Definition join_state (x userId msgId now username room : string) (s : state) : state :=
  {| users := <[x := mkUser userId username room x]> (users s);
     rooms := <[room := set_add x (room_members s room)]> (rooms s);
     messages :=
       <[room := room_log s room ++ [welcome_message msgId username now]]> (messages s);
     sids := alter (λ rs, rs ∪ {[room]}) x (sids s) |}.

(** A member of room [r] whose connection is open. *)
Definition live_member (s : state) (r x : string) : Prop :=
  x ∈ room_members s r ∧ is_Some (sids s !! x).

Definition is_joined (e : event) : bool :=
  match e with joined _ _ _ _ => true | _ => false end.

(** A join succeeded when it sent the [joined] snapshot. *)
Definition join_succeeds (out : list emission) : Prop :=
  ∃ e, e ∈ out ∧ is_joined (em_event e) = true.

(** The ways a send fails: no session, a blank text, a text that is too
    long, or a room without a message log. *)
Definition send_rejected (s : state) (x : string) (p : chat_payload) : Prop :=
  users s !! x = None ∨ text_blank p ∨ text_too_long p ∨
  map_get (messages s) (chat_room p) = None.

(** [o] names room [r] wherever it names a room. *)
Definition targets (r : string) (o : op) : Prop :=
  match o with
  | Join _ _ _ _ p => join_room p = Some r
  | ChatMessage _ _ _ p => chat_room p = Some r
  | Typing _ p => typing_room p = Some r
  | Connect _ | Disconnect _ _ _ => True
  end.

(** The log of a single room as the specification describes it, read off
    the operations alone: an accepted join appends its system message, an
    accepted send of a joined connection its chat message, the disconnect of
    a joined connection its system message; everything else appends nothing.
    [sessions] maps a joined connection to its session id and display name. *)
Fixpoint expected_log (sessions : gmap string (string * string)) (ops : list op)
    : list message :=
  match ops with
  | [] => []
  | Connect _ :: ops' => expected_log sessions ops'
  | Typing _ _ :: ops' => expected_log sessions ops'
  | Join x userId msgId now p :: ops' =>
      match join_accepted p with
      | Some (u, _) =>
          welcome_message msgId u now :: expected_log (<[x := (userId, u)]> sessions) ops'
      | None => expected_log sessions ops'
      end
  | ChatMessage x msgId now p :: ops' =>
      match sessions !! x, send_accepted p with
      | Some (userId, u), Some t =>
          mkMessage msgId (mkAuthor userId u) (trim t) now type_message
            :: expected_log sessions ops'
      | _, _ => expected_log sessions ops'
      end
  | Disconnect x msgId now :: ops' =>
      match sessions !! x with
      | Some (_, u) => leave_message msgId u now :: expected_log (delete x sessions) ops'
      | None => expected_log sessions ops'
      end
  end.

(** *** Invariants *)

(** Every room with a member set has a message log. *)
Definition logs_cover (s : state) : Prop :=
  ∀ r, is_Some (rooms s !! r) → is_Some (messages s !! r).

(** A session belongs to a connected socket that is in the Socket.io room of
    the session and in the member set of that room. *)
Definition sessions_joined (s : state) : Prop :=
  ∀ x u, users s !! x = Some u →
    x ∈ room_members s (user_room u) ∧
    ∃ rs, sids s !! x = Some rs ∧ user_room u ∈ rs.

(** A connected member of a room is in the Socket.io room of that name. *)
Definition members_subscribed (s : state) : Prop :=
  ∀ r x rs, x ∈ room_members s r → sids s !! x = Some rs → r ∈ rs.

Definition wf (s : state) : Prop :=
  logs_cover s ∧ sessions_joined s ∧ members_subscribed s.

(** The registry and the single room [r], seen from the operations: what
    [expected_log] tracks agrees with [users], and every session is in [r]. *)
Definition tracks (r : string) (s : state) (sessions : gmap string (string * string)) : Prop :=
  logs_cover s ∧
  (∀ x, sessions !! x = (λ u, (user_id u, user_username u)) <$> users s !! x) ∧
  (∀ x u, users s !! x = Some u → user_room u = r ∧ x ∈ room_members s r).

(** What a step keeps: rooms stay, logs are extended at the end. *)
Definition extends (s s' : state) : Prop :=
  dom (rooms s) ⊆ dom (rooms s') ∧
  dom (messages s) ⊆ dom (messages s') ∧
  ∀ r, room_log s r `prefix_of` room_log s' r.

(** *** Sample traces *)

Definition at_10 : string := "2024-05-01 10:00:00".

(** Alice connects and joins "general". *)
Definition alice_in_general : list op :=
  [Connect "s1"; Join "s1" "u1" "m1" at_10 (mkJoin (Some "Alice") (Some "general"))].

(** Then Bob connects and joins "general" too. *)
Definition alice_bob_in_general : list op :=
  alice_in_general ++
  [Connect "s2"; Join "s2" "u2" "m2" at_10 (mkJoin (Some "Bob") (Some "general"))].

(** Alice in "general", Bob in "random". *)
Definition alice_general_bob_random : list op :=
  alice_in_general ++
  [Connect "s2"; Join "s2" "u2" "m2" at_10 (mkJoin (Some "Bob") (Some "random"))].

(** Alice joins "general" and then, on the same connection, "random". *)
Definition alice_rejoins : list op :=
  alice_in_general ++ [Join "s1" "u3" "m3" at_10 (mkJoin (Some "Alice") (Some "random"))].

(** The state after a trace from the empty server ([init] if a handler threw). *)
Definition state_of (ops : list op) : state := default init (state_after ops init).

(** A string of [n] copies of [a]. *)
Fixpoint replicate_string (n : nat) (a : ascii) : string :=
  match n with
  | 0 => EmptyString
  | S n' => String a (replicate_string n' a)
  end.

(** ** The REST endpoints *)

(** [rooms.get(room).size] *)
Definition userCount (s : state) (r : string) : nat := length (room_members s r).

(** [GET /api/rooms]: one entry [{ name, userCount }] for every key of
    [rooms].  The entries are given as a map from the name to the count; the
    order of the array (the insertion order of the Map) is not kept by
    [state] and is left out.  [rooms.get(room)] is defined for every key, so
    the handler's [catch] is never entered and the answer is always the
    [success: true] one.  [GET /api/rooms/:room/messages] answers in the same
    way with [room_log]. *)
Definition api_rooms (s : state) : gmap string nat := length <$> rooms s.

(** The sessions whose room is [r]. *)
Definition sessions_in (s : state) (r : string) : gmap string user :=
  filter (λ kv, user_room kv.2 = r) (users s).

(** ** More notions for the statements *)


(** The message an event carries to a room, if it carries one. *)
Definition carried (e : event) : option message :=
  match e with
  | userJoined _ m | newMessage m | userLeft _ _ m => Some m
  | _ => None
  end.

(** The room an emission was addressed to, if it was addressed to a room. *)
Definition target_room (t : target) : option string :=
  match t with
  | ToSocket _ => None
  | ToRoomExcept r _ | ToRoom r => r
  end.

(** The messages broadcast to room [r], in order. *)
Definition announced_to (r : string) (out : list emission) : list message :=
  omap (λ e, if bool_decide (target_room (em_target e) = Some r)
             then carried (em_event e) else None) out.

(** A log entry as the handlers build them: a system message signed by the
    system author, or a chat message whose text is trimmed and has between
    1 and [MAX_MESSAGE_LENGTH] characters. *)
Definition entry_ok (m : message) : Prop :=
  match msg_type m with
  | type_system => msg_user m = system_author
  | type_message =>
      trim (msg_text m) = msg_text m ∧
      1 ≤ String.length (msg_text m) ≤ MAX_MESSAGE_LENGTH
  end.

(** A session as the [join] handler stores it under the socket [x]. *)
Definition session_ok (s : state) (x : string) (u : user) : Prop :=
  user_socketId u = x ∧
  1 ≤ String.length (user_username u) ≤ 20 ∧
  user_room u ≠ "" ∧
  x ∈ room_members s (user_room u) ∧
  is_Some (messages s !! user_room u).


(** ** One operation, case by case *)

(** [step o s s' out] lists the ways handling [o] in [s] can end normally,
    in [s'] and having emitted [out]: one constructor for every path through
    the handlers (the text of an [error] is left open). *)
Inductive step : op → state → state → list emission → Prop :=
| step_connect x s :
    step (Connect x) s (with_sids <[x := {[x]}]> s) []
| step_join x userId msgId now p u r s :
    join_accepted p = Some (u, r) →
    step (Join x userId msgId now p) s (join_state x userId msgId now u r s)
      [mkEmission (ToSocket x)
         (joined (mkUser userId u r x) r
            (Some (room_log (join_state x userId msgId now u r s) r))
            ((λ i, users (join_state x userId msgId now u r s) !! i) <$>
               room_members (join_state x userId msgId now u r s) r))
         {[x]};
       mkEmission (ToRoomExcept (Some r) x)
         (userJoined (mkUser userId u r x) (welcome_message msgId u now))
         (room_sockets (sids (join_state x userId msgId now u r s)) (Some r) ∖ {[x]})]
| step_join_rejected x userId msgId now p msg s :
    join_accepted p = None →
    step (Join x userId msgId now p) s s (reports x msg)
| step_chat x msgId now p u t r l s :
    users s !! x = Some u → send_accepted p = Some t →
    chat_room p = Some r → messages s !! r = Some l →
    step (ChatMessage x msgId now p) s
      (with_messages <[r := l ++ [chat_message_of msgId u t now]]> s)
      [mkEmission (ToRoom (Some r)) (newMessage (chat_message_of msgId u t now))
         (room_sockets (sids s) (Some r))]
| step_chat_rejected x msgId now p msg s :
    send_rejected s x p →
    step (ChatMessage x msgId now p) s s (reports x msg)
| step_typing x p u s :
    users s !! x = Some u →
    step (Typing x p) s s
      [mkEmission (ToRoomExcept (typing_room p) x)
         (userTyping (user_id u) (user_username u) (typing_isTyping p))
         (room_sockets (sids s) (typing_room p) ∖ {[x]})]
| step_typing_silent x p s :
    users s !! x = None →
    step (Typing x p) s s []
| step_disconnect x msgId now u l lg s :
    users s !! x = Some u → rooms s !! user_room u = Some l → x ∈ l →
    messages s !! user_room u = Some lg →
    step (Disconnect x msgId now) s
      {| users := delete x (users s);
         rooms := <[user_room u := set_delete x l]> (rooms s);
         messages :=
           <[user_room u := lg ++ [leave_message msgId (user_username u) now]]> (messages s);
         sids := delete x (sids s) |}
      [mkEmission (ToRoomExcept (Some (user_room u)) x)
         (userLeft (user_id u) (user_username u)
            (leave_message msgId (user_username u) now))
         (room_sockets (delete x (sids s)) (Some (user_room u)) ∖ {[x]})]
| step_disconnect_not_member x msgId now u s :
    users s !! x = Some u → x ∉ room_members s (user_room u) →
    step (Disconnect x msgId now) s (with_users (delete x) (with_sids (delete x) s)) []
| step_disconnect_none x msgId now s :
    users s !! x = None →
    step (Disconnect x msgId now) s (with_sids (delete x) s) [].

(** * Properties *)

#[local] Set Warnings "-clear-no-such-hyp".

Ltac run_M :=
  cbv [mbind M_bind mret M_ret try_catch throw users_get users_set users_delete
       users_of rooms_has rooms_get rooms_set_new rooms_add rooms_delete
       rooms_array messages_has messages_get messages_set_new messages_push
       socket_join socket_connect socket_leave_all emit map_get
       with_users with_rooms with_messages with_sids
       users rooms messages sids option_bind].

(** ** What each handler does *)

Lemma join_body_eq x uid mid now u r s :
  join_body x uid mid now u r s =
  let usr := mkUser uid u r x in
  let s' := join_state x uid mid now u r s in
  Done tt s'
    [mkEmission (ToSocket x)
       (joined usr r (Some (room_log s' r)) ((λ i, users s' !! i) <$> room_members s' r))
       {[x]};
     mkEmission (ToRoomExcept (Some r) x) (userJoined usr (welcome_message mid u now))
       (room_sockets (sids s') (Some r) ∖ {[x]})].
Proof.
  destruct s as [us rs ms ss].
  unfold join_body, join_state, room_members, room_log. run_M.
  destruct (rs !! r) as [l|] eqn:Hr; destruct (ms !! r) as [lg|] eqn:Hm.
  all: repeat first [rewrite Hr | rewrite Hm | rewrite lookup_insert_eq
                    | rewrite insert_insert_eq | progress cbn beta iota].
  all: reflexivity.
Qed.

Lemma on_join_accepted x uid mid now p u r s :
  join_accepted p = Some (u, r) →
  on_join x uid mid now p s = join_body x uid mid now u r s.
Proof.
  unfold join_accepted, on_join. intros H.
  destruct (join_username p) as [u'|]; [|discriminate].
  destruct (join_room p) as [r'|]; [|discriminate].
  case_bool_decide as Hv; [|discriminate]. simplify_eq.
  destruct Hv as (Hu & Hr & Hl).
  unfold falsy. rewrite !bool_decide_eq_false_2 by done. cbn [orb].
  rewrite bool_decide_eq_false_2 by lia.
  unfold try_catch. rewrite join_body_eq. reflexivity.
Qed.

Lemma on_join_rejected x uid mid now p s :
  join_accepted p = None →
  ∃ msg, on_join x uid mid now p s = Done tt s (reports x msg).
Proof.
  unfold join_accepted, on_join, reports. intros H.
  destruct (join_username p) as [u|]; [|by eexists].
  destruct (join_room p) as [r|]; [|by eexists].
  case_bool_decide as Hv; [discriminate|].
  unfold falsy.
  destruct (decide (u = "")) as [->|Hu]; [by eexists|].
  destruct (decide (r = "")) as [->|Hr].
  { rewrite bool_decide_eq_false_2 by done. by eexists. }
  rewrite !bool_decide_eq_false_2 by done. cbn [orb].
  rewrite bool_decide_eq_true_2 by (apply Nat.nle_gt; naive_solver).
  by eexists.
Qed.


Lemma too_long_text :
  "Message too long (max " +:+ pretty MAX_MESSAGE_LENGTH +:+ " chars)"
  = "Message too long (max 1000 chars)".
Proof. vm_compute. reflexivity. Qed.

Lemma trim_empty : trim "" = "".
Proof. reflexivity. Qed.

(** The message a send appends, and the state it leaves. *)
Lemma on_chatMessage_eq x mid now p s :
  on_chatMessage x mid now p s =
  match users s !! x with
  | None => Done tt s (reports x "User not found")
  | Some u =>
      match chat_message p with
      | None => Done tt s (reports x "Message cannot be empty")
      | Some t =>
          if bool_decide (trim t = "") then
            Done tt s (reports x "Message cannot be empty")
          else if bool_decide (MAX_MESSAGE_LENGTH < String.length t) then
            Done tt s (reports x "Message too long (max 1000 chars)")
          else
            match chat_room p with
            | Some r =>
                match messages s !! r with
                | Some l =>
                    let m := chat_message_of mid u t now in
                    Done tt (with_messages <[r := l ++ [m]]> s)
                      [mkEmission (ToRoom (Some r)) (newMessage m)
                         (room_sockets (sids s) (Some r))]
                | None => Done tt s (reports x "Failed to send message")
                end
            | None => Done tt s (reports x "Failed to send message")
            end
      end
  end.
Proof.
  unfold on_chatMessage. rewrite too_long_text.
  destruct s as [us rs ms ss]. unfold reports. run_M.
  destruct (us !! x) as [u|]; [|reflexivity].
  destruct (chat_message p) as [t|]; [|reflexivity].
  unfold falsy.
  destruct (decide (t = "")) as [->|Ht].
  { rewrite trim_empty. reflexivity. }
  rewrite (bool_decide_eq_false_2 (t = "")) by done. cbn [orb].
  case_bool_decide; [reflexivity|].
  case_bool_decide; [reflexivity|].
  destruct (chat_room p) as [r|]; [|reflexivity].
  cbn beta iota. destruct (ms !! r); reflexivity.
Qed.

Lemma on_typing_eq x p s :
  on_typing x p s =
  match users s !! x with
  | Some u =>
      Done tt s [mkEmission (ToRoomExcept (typing_room p) x)
                   (userTyping (user_id u) (user_username u) (typing_isTyping p))
                   (room_sockets (sids s) (typing_room p) ∖ {[x]})]
  | None => Done tt s []
  end.
Proof.
  unfold on_typing. destruct s as [us rs ms ss]. run_M.
  destruct (us !! x); reflexivity.
Qed.

Lemma on_disconnect_eq x mid now s :
  on_disconnect x mid now s =
  match users s !! x with
  | None => Done tt s []
  | Some u =>
      let r := user_room u in
      match rooms s !! r with
      | Some l =>
          if set_has x l then
            match messages s !! r with
            | Some lg =>
                let m := leave_message mid (user_username u) now in
                Done tt
                  {| users := delete x (users s);
                     rooms := <[r := set_delete x l]> (rooms s);
                     messages := <[r := lg ++ [m]]> (messages s);
                     sids := sids s |}
                  [mkEmission (ToRoomExcept (Some r) x)
                     (userLeft (user_id u) (user_username u) m)
                     (room_sockets (sids s) (Some r) ∖ {[x]})]
            | None =>
                Thrown (with_rooms <[r := set_delete x l]> s) []
            end
          else Done tt (with_users (delete x) s) []
      | None => Done tt (with_users (delete x) s) []
      end
  end.
Proof.
  unfold on_disconnect. destruct s as [us rs ms ss]. run_M.
  destruct (us !! x) as [u|]; [|reflexivity].
  destruct (rs !! user_room u) as [l|] eqn:Hr; [|reflexivity].
  destruct (set_has x l); [|reflexivity].
  rewrite Hr. cbn beta iota.
  destruct (ms !! user_room u); reflexivity.
Qed.

Lemma dispatch_disconnect_eq x mid now s :
  dispatch (Disconnect x mid now) s = on_disconnect x mid now (with_sids (delete x) s).
Proof.
  cbn [dispatch]. unfold mbind, M_bind, socket_leave_all.
  destruct (on_disconnect _ _ _ _); reflexivity.
Qed.

Lemma run_cons o ops s :
  run (o :: ops) s =
  match dispatch o s with
  | Done _ s1 o1 =>
      match run ops s1 with
      | Done b s2 o2 => Done b s2 (o1 ++ o2)
      | Thrown s2 o2 => Thrown s2 (o1 ++ o2)
      end
  | Thrown s1 o1 => Thrown s1 o1
  end.
Proof. reflexivity. Qed.

Lemma run_app ops1 ops2 s s1 o1 :
  run ops1 s = Done tt s1 o1 →
  run (ops1 ++ ops2) s =
  match run ops2 s1 with
  | Done b s2 o2 => Done b s2 (o1 ++ o2)
  | Thrown s2 o2 => Thrown s2 (o1 ++ o2)
  end.
Proof.
  revert s o1. induction ops1 as [|o ops1 IH]; intros s o1 H.
  - cbn in H. injection H as <- <-. cbn [app]. destruct (run ops2 s); reflexivity.
  - rewrite <- app_comm_cons, run_cons. rewrite run_cons in H.
    destruct (dispatch o s) as [[] sa oa|]; [|discriminate].
    destruct (run ops1 sa) as [[] sb ob|] eqn:Hb; [|discriminate].
    injection H as <- <-. rewrite (IH _ _ Hb).
    destruct (run ops2 sb); rewrite app_assoc; reflexivity.
Qed.

(** *** Sets in insertion order *)

Lemma elem_of_set_add y x l : y ∈ set_add x l ↔ y = x ∨ y ∈ l.
Proof.
  unfold set_add. case_bool_decide.
  - naive_solver.
  - rewrite elem_of_app, list_elem_of_singleton. naive_solver.
Qed.

Lemma elem_of_set_delete y x l : y ∈ set_delete x l ↔ y ∈ l ∧ y ≠ x.
Proof. unfold set_delete. rewrite list_elem_of_filter. naive_solver. Qed.

Lemma set_has_true x l : set_has x l = true ↔ x ∈ l.
Proof. unfold set_has. apply bool_decide_eq_true. Qed.

(** *** Logs and member sets after a join *)

Lemma room_log_join x uid mid now u r s k :
  room_log (join_state x uid mid now u r s) k =
  if decide (k = r) then room_log s r ++ [welcome_message mid u now] else room_log s k.
Proof.
  unfold room_log at 1. cbn [join_state messages].
  case_decide as Hk.
  - subst k. by rewrite lookup_insert_eq.
  - by rewrite lookup_insert_ne.
Qed.

Lemma room_members_join x uid mid now u r s k :
  room_members (join_state x uid mid now u r s) k =
  if decide (k = r) then set_add x (room_members s r) else room_members s k.
Proof.
  unfold room_members at 1. cbn [join_state rooms].
  case_decide as Hk.
  - subst k. by rewrite lookup_insert_eq.
  - by rewrite lookup_insert_ne.
Qed.

Lemma room_log_insert s r l k :
  room_log (with_messages <[r := l]> s) k = if decide (k = r) then l else room_log s k.
Proof.
  unfold room_log, with_messages. cbn [messages].
  case_decide as Hk.
  - subst k. by rewrite lookup_insert_eq.
  - by rewrite lookup_insert_ne.
Qed.

(** ** The state only grows: one step *)

Lemma extends_refl s : extends s s.
Proof. by split; [|split]. Qed.

Lemma extends_trans s1 s2 s3 : extends s1 s2 → extends s2 s3 → extends s1 s3.
Proof.
  intros (A1 & B1 & C1) (A2 & B2 & C2). split; [|split].
  - set_solver.
  - set_solver.
  - intros r. etrans; [apply C1 | apply C2].
Qed.

Lemma join_state_extends x uid mid now u r s :
  extends s (join_state x uid mid now u r s).
Proof.
  split; [|split]; cbn [join_state rooms messages].
  - rewrite dom_insert_L. set_solver.
  - rewrite dom_insert_L. set_solver.
  - intros k. rewrite room_log_join. case_decide; [subst|done].
    by apply prefix_app_r.
Qed.

Lemma join_state_logs_cover x uid mid now u r s :
  logs_cover s → logs_cover (join_state x uid mid now u r s).
Proof.
  intros H k. cbn [join_state rooms messages].
  destruct (decide (k = r)) as [->|Hk].
  - by rewrite !lookup_insert_eq.
  - rewrite !lookup_insert_ne by done. apply H.
Qed.

Lemma push_extends s r l m :
  messages s !! r = Some l → extends s (with_messages <[r := l ++ [m]]> s).
Proof.
  intros Hl. split; [|split]; cbn [with_messages rooms messages].
  - done.
  - rewrite dom_insert_L. set_solver.
  - intros k. rewrite room_log_insert. case_decide; [subst|done].
    unfold room_log. rewrite Hl. by apply prefix_app_r.
Qed.

Lemma push_logs_cover s r l :
  logs_cover s → logs_cover (with_messages <[r := l]> s).
Proof.
  intros H k Hk. cbn [with_messages rooms messages] in *.
  destruct (decide (k = r)) as [->|?].
  - by rewrite lookup_insert_eq.
  - rewrite lookup_insert_ne by done. by apply H.
Qed.

Lemma logs_cover_sids f s : logs_cover s → logs_cover (with_sids f s).
Proof. intros H r. apply H. Qed.

Lemma logs_cover_users f s : logs_cover s → logs_cover (with_users f s).
Proof. intros H r. apply H. Qed.

Lemma extends_sids f s s' : extends (with_sids f s) s' ↔ extends s s'.
Proof. reflexivity. Qed.

Lemma extends_users f s : extends s (with_users f s).
Proof. by split; [|split]. Qed.

(** Under [logs_cover] no handler throws, and a step only extends. *)
Lemma dispatch_total o s :
  logs_cover s →
  ∃ s' out, dispatch o s = Done tt s' out ∧ logs_cover s' ∧ extends s s'.
Proof.
  intros Hc. destruct o as [x|x uid mid now p|x mid now p|x p|x mid now].
  - eexists _, _. split; [reflexivity|].
    split; [by apply logs_cover_sids | by split; [|split]].
  - cbn [dispatch]. destruct (join_accepted p) as [[u r]|] eqn:Hp.
    + rewrite (on_join_accepted _ _ _ _ _ _ _ _ Hp), join_body_eq.
      eexists _, _. split; [reflexivity|].
      split; [by apply join_state_logs_cover | apply join_state_extends].
    + destruct (on_join_rejected x uid mid now p s Hp) as [msg ->].
      eexists _, _. split; [reflexivity|]. split; [exact Hc | apply extends_refl].
  - cbn [dispatch]. rewrite on_chatMessage_eq.
    repeat first
      [ match goal with
        | |- context [match ?o with Some _ => _ | None => _ end] => destruct o eqn:?
        end
      | case_bool_decide ];
      cbn zeta;
      eexists _, _; (split; [reflexivity|]);
      try (split; [exact Hc | apply extends_refl]).
    split; [by apply push_logs_cover | by apply push_extends].
  - cbn [dispatch]. rewrite on_typing_eq.
    destruct (users s !! x); eexists _, _;
      (split; [reflexivity|]); (split; [exact Hc | apply extends_refl]).
  - rewrite dispatch_disconnect_eq, on_disconnect_eq.
    apply (logs_cover_sids (delete x)) in Hc.
    setoid_rewrite <- (extends_sids (delete x) s).
    generalize dependent (with_sids (delete x) s). clear s. intros s Hc.
    destruct (users s !! x) as [u|] eqn:Hu; cbn zeta.
    2:{ eexists _, _. split; [reflexivity|]. split; [exact Hc|]. apply extends_refl. }
    destruct (rooms s !! user_room u) as [l|] eqn:Hr.
    2:{ eexists _, _. split; [reflexivity|].
        split; [by apply logs_cover_users | apply extends_users]. }
    destruct (set_has x l).
    2:{ eexists _, _. split; [reflexivity|].
        split; [by apply logs_cover_users | apply extends_users]. }
    destruct (Hc (user_room u)) as [lg Hlg]; [by rewrite Hr|]. rewrite Hlg.
    eexists _, _. split; [reflexivity|]. split.
    + intros k. cbn [rooms messages].
      destruct (decide (k = user_room u)) as [->|?].
      * by rewrite !lookup_insert_eq.
      * rewrite !lookup_insert_ne by done. apply Hc.
    + split; [|split]; cbn [rooms messages].
      * rewrite dom_insert_L. set_solver.
      * rewrite dom_insert_L. set_solver.
      * intros k. unfold room_log. cbn [messages].
        destruct (decide (k = user_room u)) as [->|?].
        -- rewrite lookup_insert_eq, Hlg. by apply prefix_app_r.
        -- by rewrite lookup_insert_ne.
Qed.

Lemma run_total ops s :
  logs_cover s →
  ∃ s' out, run ops s = Done tt s' out ∧ logs_cover s' ∧ extends s s'.
Proof.
  revert s. induction ops as [|o ops IH]; intros s Hc.
  - eexists _, _. split; [reflexivity|]. split; [exact Hc | apply extends_refl].
  - destruct (dispatch_total o s Hc) as (s1 & o1 & E1 & Hc1 & X1).
    destruct (IH s1 Hc1) as (s2 & o2 & E2 & Hc2 & X2).
    rewrite run_cons, E1, E2. eexists _, _. split; [reflexivity|].
    split; [exact Hc2 | by eapply extends_trans].
Qed.

Lemma logs_cover_init : logs_cover init.
Proof. intros r [l Hl]. cbn in Hl. by rewrite lookup_empty in Hl. Qed.

(** ** The invariant of a running server *)

Lemma wf_init : wf init.
Proof.
  split; [apply logs_cover_init|]. split.
  - intros x u H. unfold init in H. cbn [users] in H. by rewrite lookup_empty in H.
  - intros r x rs H. unfold room_members, init in H. cbn [rooms] in H.
    rewrite lookup_empty in H. by apply not_elem_of_nil in H.
Qed.

Lemma fresh_not_member s x r : fresh s x → x ∉ room_members s r.
Proof.
  intros (_ & _ & Hf). unfold room_members.
  destruct (rooms s !! r) as [l|] eqn:Hl; cbn.
  - by apply (Hf r l).
  - by apply not_elem_of_nil.
Qed.

Lemma wf_connect s x : wf s → fresh s x → wf (with_sids <[x := {[x]}]> s).
Proof.
  intros (Hc & Hs & Hm) Hf. split; [by apply logs_cover_sids|]. split.
  - intros y v Hy. cbn [with_sids users sids] in *.
    destruct (Hs y v Hy) as (Hin & rs & Hrs & Hr). split; [exact Hin|].
    exists rs. split; [|exact Hr].
    rewrite lookup_insert_ne; [done|]. intros ->.
    destruct Hf as (_ & Hu & _). congruence.
  - intros r y rs Hy Hrs. cbn [with_sids sids] in Hrs.
    change (room_members (with_sids _ s) r) with (room_members s r) in Hy.
    destruct (decide (x = y)) as [->|Hne].
    + by destruct (fresh_not_member s y r Hf).
    + rewrite lookup_insert_ne in Hrs by done. by eapply Hm.
Qed.

Lemma wf_join s x uid mid now u r :
  wf s → is_Some (sids s !! x) → wf (join_state x uid mid now u r s).
Proof.
  intros (Hc & Hs & Hm) [rs0 Hx]. split; [by apply join_state_logs_cover|]. split.
  - intros y v Hy. cbn [join_state users sids] in *.
    rewrite room_members_join.
    destruct (decide (x = y)) as [->|Hne].
    + rewrite lookup_insert_eq in Hy. injection Hy as <-. cbn [user_room].
      rewrite decide_True by done. split; [apply elem_of_set_add; by left|].
      exists (rs0 ∪ {[r]}). rewrite lookup_alter_eq, Hx. split; [done | set_solver].
    + rewrite lookup_insert_ne in Hy by done.
      destruct (Hs y v Hy) as (Hin & rs & Hrs & Hr). split.
      * case_decide as Hk; [|done]. rewrite <- Hk. apply elem_of_set_add. by right.
      * exists rs. by rewrite lookup_alter_ne.
  - intros k y rs Hy Hrs. cbn [join_state sids] in Hrs.
    rewrite room_members_join in Hy.
    destruct (decide (x = y)) as [->|Hne].
    + rewrite lookup_alter_eq, Hx in Hrs. injection Hrs as <-.
      case_decide as Hk; [set_solver|].
      apply elem_of_union_l. by eapply Hm.
    + rewrite lookup_alter_ne in Hrs by done.
      case_decide as Hk.
      * subst k. apply elem_of_set_add in Hy as [->|Hy]; [done|]. by eapply Hm.
      * by eapply Hm.
Qed.

Lemma wf_disconnect s x mid now s' out :
  wf s → dispatch (Disconnect x mid now) s = Done tt s' out → wf s'.
Proof.
  intros (Hc & Hs & Hm). rewrite dispatch_disconnect_eq, on_disconnect_eq.
  cbn [with_sids users rooms messages sids].
  assert (Hs1 : ∀ y v, y ≠ x → users s !! y = Some v →
            ∃ rs, delete x (sids s) !! y = Some rs ∧ user_room v ∈ rs).
  { intros y v Hne Hy. destruct (Hs y v Hy) as (_ & rs & Hrs & Hr).
    exists rs. by rewrite lookup_delete_ne. }
  assert (Hm1 : ∀ k y rs, y ∈ room_members s k →
            delete x (sids s) !! y = Some rs → k ∈ rs).
  { intros k y rs Hy Hrs. destruct (decide (x = y)) as [->|Hne].
    - by rewrite lookup_delete_eq in Hrs.
    - rewrite lookup_delete_ne in Hrs by done. by eapply Hm. }
  destruct (users s !! x) as [u|] eqn:Hu; cbn zeta.
  2:{ intros [= <- <-]. split; [by apply logs_cover_sids|]. split.
      - intros y v Hy. cbn [with_sids users sids] in *.
        split; [by apply (Hs y v)|]. apply Hs1; [congruence | done].
      - intros k y rs Hy Hrs. by eapply Hm1. }
  assert (Hdel : ∀ y v, delete x (users s) !! y = Some v → y ≠ x ∧ users s !! y = Some v).
  { intros y v Hy. destruct (decide (x = y)) as [->|Hne].
    - by rewrite lookup_delete_eq in Hy.
    - rewrite lookup_delete_ne in Hy by done. by split. }
  destruct (rooms s !! user_room u) as [l|] eqn:Hr.
  2:{ intros [= <- <-]. split; [by apply logs_cover_users, logs_cover_sids|]. split.
      - intros y v Hy. cbn [with_users with_sids users sids] in *.
        apply Hdel in Hy as [Hne Hy]. split; [by apply (Hs y v) | by apply Hs1].
      - intros k y rs Hy Hrs. by eapply Hm1. }
  destruct (set_has x l).
  2:{ intros [= <- <-]. split; [by apply logs_cover_users, logs_cover_sids|]. split.
      - intros y v Hy. cbn [with_users with_sids users sids] in *.
        apply Hdel in Hy as [Hne Hy]. split; [by apply (Hs y v) | by apply Hs1].
      - intros k y rs Hy Hrs. by eapply Hm1. }
  destruct (messages s !! user_room u) as [lg|] eqn:Hlg; [|discriminate].
  intros [= <- <-].
  assert (Hmem : ∀ k y, y ∈ room_members
            {| users := delete x (users s);
               rooms := <[user_room u := set_delete x l]> (rooms s);
               messages := <[user_room u := lg ++ [leave_message mid (user_username u) now]]>
                             (messages s);
               sids := delete x (sids s) |} k ↔
            y ∈ room_members s k ∧ (k = user_room u → y ≠ x)).
  { intros k y. unfold room_members. cbn [rooms].
    destruct (decide (k = user_room u)) as [->|Hk].
    - rewrite lookup_insert_eq, Hr. cbn. rewrite elem_of_set_delete. naive_solver.
    - rewrite lookup_insert_ne by done. naive_solver. }
  split; [|split].
  - intros k. cbn [rooms messages].
    destruct (decide (k = user_room u)) as [->|?].
    + by rewrite !lookup_insert_eq.
    + rewrite !lookup_insert_ne by done. apply Hc.
  - intros y v Hy. cbn [users sids] in *. apply Hdel in Hy as [Hne Hy].
    split; [|by apply Hs1]. apply Hmem. split; [by apply (Hs y v) | done].
  - intros k y rs Hy Hrs. cbn [sids] in Hrs. apply Hmem in Hy as [Hy _].
    by eapply Hm1.
Qed.

Lemma wf_messages f s : wf s → logs_cover (with_messages f s) → wf (with_messages f s).
Proof. intros (_ & Hs & Hm) Hc. by split. Qed.

Lemma wf_dispatch s o s' out :
  wf s → enabled s o → dispatch o s = Done tt s' out → wf s'.
Proof.
  intros Hwf Hen. destruct o as [x|x uid mid now p|x mid now p|x p|x mid now].
  - intros [= <- <-]. by apply wf_connect.
  - cbn [dispatch]. destruct (join_accepted p) as [[u r]|] eqn:Hp.
    + rewrite (on_join_accepted _ _ _ _ _ _ _ _ Hp), join_body_eq.
      intros [= <- <-]. by apply wf_join.
    + destruct (on_join_rejected x uid mid now p s Hp) as [msg ->].
      by intros [= <- <-].
  - cbn [dispatch]. rewrite on_chatMessage_eq.
    repeat first
      [ match goal with
        | |- context [match ?o with Some _ => _ | None => _ end] => destruct o eqn:?
        end
      | case_bool_decide ];
      cbn zeta; intros [= <- <-]; try exact Hwf.
    apply wf_messages; [done|]. apply push_logs_cover, Hwf.
  - cbn [dispatch]. rewrite on_typing_eq.
    destruct (users s !! x); by intros [= <- <-].
  - by apply wf_disconnect.
Qed.

Lemma reachable_wf s : reachable s → wf s.
Proof.
  induction 1 as [|s o s' out _ IH Hen Hd]; [apply wf_init|].
  by eapply wf_dispatch.
Qed.

(** A checked trace from the empty server ends in a reachable state. *)
Lemma trace_reachable ops s s' :
  reachable s → trace_ok s ops = true → state_after ops s = Some s' → reachable s'.
Proof.
  revert s. induction ops as [|o ops IH]; intros s Hr Hok Hs.
  - cbn in Hs. by injection Hs as <-.
  - cbn [trace_ok] in Hok. apply andb_true_iff in Hok as [Hen Hok].
    apply bool_decide_eq_true in Hen.
    unfold state_after in Hs. rewrite run_cons in Hs.
    destruct (dispatch o s) as [[] s1 o1|] eqn:Hd; [|discriminate].
    apply (IH s1); [by eapply reachable_step | done |].
    unfold state_after. by destruct (run ops s1).
Qed.

Lemma reachable_state_of ops :
  trace_ok init ops = true → is_Some (state_after ops init) → reachable (state_of ops).
Proof.
  intros Hok [s Hs]. unfold state_of. rewrite Hs. cbn.
  by apply (trace_reachable ops init s reachable_init).
Qed.

Lemma member_room_some s r x :
  x ∈ room_members s r → ∃ l, rooms s !! r = Some l ∧ x ∈ l.
Proof.
  unfold room_members. destruct (rooms s !! r) as [l|]; cbn.
  - by exists l.
  - by intros ?%not_elem_of_nil.
Qed.

(** ** C3: invalid joins *)



(** ** C9: rooms persist and logs are append-only *)

(** C9. From the empty server every sequence of operations runs to the end;
    splitting it anywhere, the rooms and logs that exist after the first
    part still exist after the second, and every log after the first part
    is a prefix of the log after the second. *)
Theorem rooms_persist_logs_append_only ops1 ops2 :
  ∃ s1 out1 s2 out2,
    run ops1 init = Done tt s1 out1 ∧
    run ops2 s1 = Done tt s2 out2 ∧
    run (ops1 ++ ops2) init = Done tt s2 (out1 ++ out2) ∧
    dom (rooms s1) ⊆ dom (rooms s2) ∧
    dom (messages s1) ⊆ dom (messages s2) ∧
    ∀ r, room_log s1 r `prefix_of` room_log s2 r.
Proof.
  destruct (run_total ops1 init logs_cover_init) as (s1 & o1 & E1 & Hc1 & _).
  destruct (run_total ops2 s1 Hc1) as (s2 & o2 & E2 & _ & X).
  exists s1, o1, s2, o2. rewrite (run_app _ _ _ _ _ E1), E2.
  split; [done|]. split; [done|]. split; [done|]. exact X.
Qed.

(** ** C1: the log of a single room *)

Lemma tracks_init r : tracks r init ∅.
Proof.
  split; [apply logs_cover_init|]. split.
  - intros x. unfold init. cbn [users]. by rewrite !lookup_empty.
  - intros x u H. unfold init in H. cbn [users] in H. by rewrite lookup_empty in H.
Qed.

Lemma tracks_run r ops s sessions :
  tracks r s sessions → Forall (targets r) ops →
  ∃ s' out, run ops s = Done tt s' out ∧
            room_log s' r = room_log s r ++ expected_log sessions ops.
Proof.
  revert s sessions. induction ops as [|o ops IH]; intros s σ Ht Hops.
  { eexists _, _. split; [reflexivity|]. cbn. by rewrite app_nil_r. }
  apply Forall_cons in Hops as [Ho Hops]. rewrite run_cons.
  assert (Hstep : ∀ s1 o1 σ1 app,
    dispatch o s = Done tt s1 o1 → tracks r s1 σ1 →
    room_log s1 r = room_log s r ++ app →
    expected_log σ (o :: ops) = app ++ expected_log σ1 ops →
    ∃ s' out,
      match dispatch o s with
      | Done _ s1 o1 =>
          match run ops s1 with
          | Done b s2 o2 => Done b s2 (o1 ++ o2)
          | Thrown s2 o2 => Thrown s2 (o1 ++ o2)
          end
      | Thrown s1 o1 => Thrown s1 o1
      end = Done tt s' out ∧
      room_log s' r = room_log s r ++ expected_log σ (o :: ops)).
  { intros s1 o1 σ1 app Hd Ht1 Hlog Hexp.
    destruct (IH s1 σ1 Ht1 Hops) as (s' & out & Hrun & Hl).
    rewrite Hd, Hrun. eexists _, _. split; [reflexivity|].
    by rewrite Hl, Hlog, Hexp, app_assoc. }
  destruct Ht as (Hc & Hσ & Hr).
  destruct o as [x|x uid mid now p|x mid now p|x p|x mid now]; cbn [targets] in Ho.
  - eapply (Hstep _ _ σ []); [reflexivity | | by rewrite app_nil_r | reflexivity].
    split; [by apply logs_cover_sids|]. by split.
  - destruct (join_accepted p) as [[u r']|] eqn:Hp.
    + assert (r' = r) as ->.
      { unfold join_accepted in Hp. rewrite Ho in Hp.
        destruct (join_username p); [|done]. case_bool_decide; congruence. }
      eapply (Hstep _ _ (<[x := (uid, u)]> σ) [welcome_message mid u now]).
      * cbn [dispatch]. by rewrite (on_join_accepted _ _ _ _ _ _ _ _ Hp), join_body_eq.
      * split; [by apply join_state_logs_cover|]. split.
        -- intros y. cbn [join_state users].
           destruct (decide (x = y)) as [->|Hne].
           ++ by rewrite !lookup_insert_eq.
           ++ rewrite !lookup_insert_ne by done. apply Hσ.
        -- intros y v Hy. cbn [join_state users] in Hy. rewrite room_members_join.
           rewrite decide_True by done.
           destruct (decide (x = y)) as [->|Hne].
           ++ rewrite lookup_insert_eq in Hy. injection Hy as <-.
              split; [done|]. apply elem_of_set_add. by left.
           ++ rewrite lookup_insert_ne in Hy by done.
              destruct (Hr y v Hy). split; [done|]. apply elem_of_set_add. by right.
      * rewrite room_log_join. by rewrite decide_True.
      * cbn [expected_log]. by rewrite Hp.
    + destruct (on_join_rejected x uid mid now p s Hp) as [msg Hd].
      eapply (Hstep _ _ σ []); [exact Hd | done | by rewrite app_nil_r |].
      cbn [expected_log]. by rewrite Hp.
  - assert (Hd := on_chatMessage_eq x mid now p s). rewrite Ho in Hd.
    destruct (users s !! x) as [u0|] eqn:Hu.
    2:{ eapply (Hstep _ _ σ []); [exact Hd | done | by rewrite app_nil_r |].
        cbn [expected_log]. by rewrite Hσ, Hu. }
    destruct (chat_message p) as [t|] eqn:Hmsg.
    2:{ eapply (Hstep _ _ σ []); [exact Hd | done | by rewrite app_nil_r |].
        cbn [expected_log]. unfold send_accepted. by rewrite Hσ, Hu, Hmsg. }
    destruct (decide (trim t = "")) as [Hb|Hb].
    { rewrite bool_decide_eq_true_2 in Hd by done.
      eapply (Hstep _ _ σ []); [exact Hd | done | by rewrite app_nil_r |].
      cbn [expected_log]. unfold send_accepted. rewrite Hσ, Hu, Hmsg. cbn.
      rewrite bool_decide_eq_false_2; [done | naive_solver]. }
    rewrite bool_decide_eq_false_2 in Hd by done.
    destruct (decide (MAX_MESSAGE_LENGTH < String.length t)) as [Hlen|Hlen].
    { rewrite bool_decide_eq_true_2 in Hd by done.
      eapply (Hstep _ _ σ []); [exact Hd | done | by rewrite app_nil_r |].
      cbn [expected_log]. unfold send_accepted. rewrite Hσ, Hu, Hmsg. cbn.
      rewrite bool_decide_eq_false_2; [done | lia]. }
    rewrite bool_decide_eq_false_2 in Hd by done.
    destruct (Hr x u0 Hu) as [Hroom Hin].
    destruct (member_room_some _ _ _ Hin) as (l & Hl & _).
    destruct (Hc r) as [lg Hlg]; [by rewrite Hl|]. rewrite Hlg in Hd. cbn zeta in Hd.
    eapply (Hstep _ _ σ [chat_message_of mid u0 t now]); [exact Hd | | |].
    + split; [by apply push_logs_cover|]. by split.
    + rewrite room_log_insert, decide_True by done.
      unfold room_log. by rewrite Hlg.
    + cbn [expected_log]. unfold send_accepted. rewrite Hσ, Hu, Hmsg. cbn.
      rewrite bool_decide_eq_true_2; [done | split; [done | lia]].
  - assert (Hd := on_typing_eq x p s).
    destruct (users s !! x);
      (eapply (Hstep _ _ σ []); [exact Hd | done | by rewrite app_nil_r | reflexivity]).
  - assert (Hd := dispatch_disconnect_eq x mid now s).
    rewrite on_disconnect_eq in Hd. cbn [with_sids users rooms messages sids] in Hd.
    destruct (users s !! x) as [u0|] eqn:Hu; cbn zeta in Hd.
    2:{ eapply (Hstep _ _ σ []); [exact Hd | | by rewrite app_nil_r |].
        - split; [by apply logs_cover_sids|]. by split.
        - cbn [expected_log]. by rewrite Hσ, Hu. }
    destruct (Hr x u0 Hu) as [Hroom Hin]. rewrite Hroom in Hd.
    destruct (member_room_some _ _ _ Hin) as (l & Hl & Hxl).
    destruct (Hc r) as [lg Hlg]; [by rewrite Hl|].
    rewrite Hl, Hlg in Hd. rewrite (proj2 (set_has_true x l) Hxl) in Hd.
    eapply (Hstep _ _ (delete x σ) [leave_message mid (user_username u0) now]);
      [exact Hd | | |].
    + split; [|split].
      * intros k. cbn [rooms messages].
        destruct (decide (k = r)) as [->|?].
        -- by rewrite !lookup_insert_eq.
        -- rewrite !lookup_insert_ne by done. apply Hc.
      * intros y. cbn [users]. destruct (decide (x = y)) as [->|Hne].
        -- by rewrite !lookup_delete_eq.
        -- rewrite !lookup_delete_ne by done. apply Hσ.
      * intros y v Hy. cbn [users] in Hy.
        destruct (decide (x = y)) as [->|Hne];
          [by rewrite lookup_delete_eq in Hy|].
        rewrite lookup_delete_ne in Hy by done.
        destruct (Hr y v Hy) as [? Hy']. split; [done|].
        unfold room_members. cbn [rooms]. rewrite lookup_insert_eq. cbn.
        apply elem_of_set_delete. split; [|done].
        unfold room_members in Hy'. by rewrite Hl in Hy'.
    + unfold room_log. cbn [messages]. by rewrite lookup_insert_eq, Hlg.
    + cbn [expected_log]. by rewrite Hσ, Hu.
Qed.

(** C1. For every sequence of connect, join, send, typing and disconnect
    operations that name the single room [r], run from the empty server:
    no handler throws, and the log of [r] at the end is the list of system
    messages of the accepted joins and effective disconnects and of chat
    messages of the accepted sends, in the order of the operations; typing
    and rejected operations add nothing. *)
Theorem single_room_log r ops :
  Forall (targets r) ops →
  ∃ s out, run ops init = Done tt s out ∧ room_log s r = expected_log ∅ ops.
Proof.
  intros H. destruct (tracks_run r ops init ∅ (tracks_init r) H) as (s & out & E & L).
  exists s, out. split; [exact E|]. rewrite L. unfold room_log, init. cbn [messages].
  by rewrite lookup_empty.
Qed.

Lemma single_room_log_witness :
  ∃ s out,
    run (alice_bob_in_general ++
         [ChatMessage "s1" "m3" at_10 (mkChat (Some " hi ") (Some "general"));
          Typing "s2" (mkTyping (Some "general") true);
          ChatMessage "s2" "m4" at_10 (mkChat (Some "   ") (Some "general"));
          Disconnect "s2" "m5" at_10;
          Disconnect "s2" "m6" at_10]) init = Done tt s out ∧
    room_log s "general" =
    expected_log ∅
      (alice_bob_in_general ++
       [ChatMessage "s1" "m3" at_10 (mkChat (Some " hi ") (Some "general"));
        Typing "s2" (mkTyping (Some "general") true);
        ChatMessage "s2" "m4" at_10 (mkChat (Some "   ") (Some "general"));
        Disconnect "s2" "m5" at_10;
        Disconnect "s2" "m6" at_10]).
Proof.
  apply single_room_log. repeat constructor.
Defined.

(** The scenario of the specification, evaluated: the log it expects. *)
Example expected_log_scenario :
  expected_log ∅
    (alice_bob_in_general ++
     [ChatMessage "s1" "m3" at_10 (mkChat (Some " hi ") (Some "general"));
      Typing "s2" (mkTyping (Some "general") true);
      ChatMessage "s2" "m4" at_10 (mkChat (Some "   ") (Some "general"));
      Disconnect "s2" "m5" at_10;
      Disconnect "s2" "m6" at_10])
  = [system_message "m1" "Alice has joined the room" at_10;
     system_message "m2" "Bob has joined the room" at_10;
     mkMessage "m3" (mkAuthor "u1" "Alice") "hi" at_10 type_message;
     system_message "m5" "Bob has left the room" at_10].
Proof. vm_compute. reflexivity. Qed.

(** ** C6: disconnect is idempotent *)

Lemma with_sids_delete_twice x s :
  with_sids (delete x) (with_sids (delete x) s) = with_sids (delete x) s.
Proof. unfold with_sids. cbn [users rooms messages sids]. by rewrite delete_delete_eq. Qed.

(** C6. In a running server, disconnecting a connection twice in a row is
    the same as disconnecting it once: the second disconnect emits nothing and
    changes nothing.  When the connection had a session the first disconnect
    emits exactly one [userLeft] broadcast and appends exactly one system
    message to the log of the session's room, and changes no other log; when
    it had none, neither disconnect emits or appends anything. *)
Theorem disconnect_idempotent s x m1 t1 m2 t2 :
  reachable s →
  ∃ s1 out1,
    dispatch (Disconnect x m1 t1) s = Done tt s1 out1 ∧
    dispatch (Disconnect x m2 t2) s1 = Done tt s1 [] ∧
    run [Disconnect x m1 t1; Disconnect x m2 t2] s = Done tt s1 out1 ∧
    match users s !! x with
    | Some u =>
        let m := leave_message m1 (user_username u) t1 in
        out1 = [mkEmission (ToRoomExcept (Some (user_room u)) x)
                  (userLeft (user_id u) (user_username u) m)
                  (room_sockets (delete x (sids s)) (Some (user_room u)) ∖ {[x]})] ∧
        messages s1 = <[user_room u := room_log s (user_room u) ++ [m]]> (messages s)
    | None => out1 = [] ∧ messages s1 = messages s
    end.
Proof.
  intros (Hc & Hs & _)%reachable_wf.
  assert (Hrun : ∀ s1 out1,
    dispatch (Disconnect x m1 t1) s = Done tt s1 out1 →
    dispatch (Disconnect x m2 t2) s1 = Done tt s1 [] →
    run [Disconnect x m1 t1; Disconnect x m2 t2] s = Done tt s1 out1).
  { intros s1 out1 E1 E2. rewrite run_cons, E1, run_cons, E2. cbn. by rewrite !app_nil_r. }
  destruct (users s !! x) as [u|] eqn:Hu.
  - destruct (Hs x u Hu) as [Hin _].
    destruct (member_room_some _ _ _ Hin) as (l & Hl & Hxl).
    destruct (Hc (user_room u)) as [lg Hlg]; [by rewrite Hl|].
    assert (E1 : dispatch (Disconnect x m1 t1) s = Done tt
              {| users := delete x (users s);
                 rooms := <[user_room u := set_delete x l]> (rooms s);
                 messages := <[user_room u := lg ++ [leave_message m1 (user_username u) t1]]>
                               (messages s);
                 sids := delete x (sids s) |}
              [mkEmission (ToRoomExcept (Some (user_room u)) x)
                 (userLeft (user_id u) (user_username u)
                    (leave_message m1 (user_username u) t1))
                 (room_sockets (delete x (sids s)) (Some (user_room u)) ∖ {[x]})]).
    { rewrite dispatch_disconnect_eq, on_disconnect_eq.
      cbn [with_sids users rooms messages sids]. rewrite Hu. cbn zeta.
      rewrite Hl, Hlg. by rewrite (proj2 (set_has_true x l) Hxl). }
    eexists _, _. split; [exact E1|].
    assert (E2 : dispatch (Disconnect x m2 t2)
              {| users := delete x (users s);
                 rooms := <[user_room u := set_delete x l]> (rooms s);
                 messages := <[user_room u := lg ++ [leave_message m1 (user_username u) t1]]>
                               (messages s);
                 sids := delete x (sids s) |}
            = Done tt
              {| users := delete x (users s);
                 rooms := <[user_room u := set_delete x l]> (rooms s);
                 messages := <[user_room u := lg ++ [leave_message m1 (user_username u) t1]]>
                               (messages s);
                 sids := delete x (sids s) |} []).
    { rewrite dispatch_disconnect_eq, on_disconnect_eq.
      cbn [with_sids users rooms messages sids]. rewrite lookup_delete_eq.
      unfold with_sids. cbn [users rooms messages sids]. by rewrite delete_delete_eq. }
    split; [exact E2|]. split; [by apply Hrun|].
    cbn zeta. split; [done|]. cbn [messages]. unfold room_log. by rewrite Hlg.
  - assert (E1 : dispatch (Disconnect x m1 t1) s = Done tt (with_sids (delete x) s) []).
    { rewrite dispatch_disconnect_eq, on_disconnect_eq.
      cbn [with_sids users rooms messages sids]. by rewrite Hu. }
    assert (E2 : dispatch (Disconnect x m2 t2) (with_sids (delete x) s)
                 = Done tt (with_sids (delete x) s) []).
    { rewrite dispatch_disconnect_eq, on_disconnect_eq, with_sids_delete_twice.
      cbn [with_sids users rooms messages sids]. by rewrite Hu. }
    eexists _, _. split; [exact E1|]. split; [exact E2|]. split; [by apply Hrun|].
    by split.
Qed.

Lemma disconnect_idempotent_witness :
  ∃ s1 out1,
    dispatch (Disconnect "s2" "m3" at_10) (state_of alice_bob_in_general) = Done tt s1 out1 ∧
    dispatch (Disconnect "s2" "m4" at_10) s1 = Done tt s1 [] ∧
    run [Disconnect "s2" "m3" at_10; Disconnect "s2" "m4" at_10]
      (state_of alice_bob_in_general) = Done tt s1 out1 ∧
    match users (state_of alice_bob_in_general) !! "s2" with
    | Some u =>
        let m := leave_message "m3" (user_username u) at_10 in
        out1 = [mkEmission (ToRoomExcept (Some (user_room u)) "s2")
                  (userLeft (user_id u) (user_username u) m)
                  (room_sockets (delete "s2" (sids (state_of alice_bob_in_general)))
                     (Some (user_room u)) ∖ {["s2"]})] ∧
        messages s1 =
          <[user_room u := room_log (state_of alice_bob_in_general) (user_room u) ++ [m]]>
            (messages (state_of alice_bob_in_general))
    | None => out1 = [] ∧ messages s1 = messages (state_of alice_bob_in_general)
    end.
Proof.
  apply (disconnect_idempotent (state_of alice_bob_in_general) "s2" "m3" at_10 "m4" at_10).
  apply reachable_state_of; [vm_compute; reflexivity | vm_compute; eexists; reflexivity].
Defined.

(** ** Who receives what *)

Lemma elem_of_room_sockets a r y :
  y ∈ room_sockets a (Some r) ↔ ∃ rs, a !! y = Some rs ∧ r ∈ rs.
Proof.
  unfold room_sockets. rewrite elem_of_dom. unfold is_Some.
  setoid_rewrite map_lookup_filter_Some. naive_solver.
Qed.

Lemma inbox_cons x e out :
  inbox x (e :: out) = if decide (x ∈ em_to e) then em_event e :: inbox x out else inbox x out.
Proof.
  unfold inbox. rewrite filter_cons. by case_decide.
Qed.

(** ** C7: a join's snapshot and broadcast *)



(** The scenario of the specification: when Bob joins "general", Alice
    receives [userJoined] for Bob, Bob receives the snapshot with both
    system messages and both users. *)
Example bob_joins_general :
  ∃ s' out,
    on_join "s2" "u2" "m2" at_10 (mkJoin (Some "Bob") (Some "general"))
      (state_of (alice_in_general ++ [Connect "s2"])) = Done tt s' out ∧
    inbox "s1" out
      = [userJoined (mkUser "u2" "Bob" "general" "s2") (welcome_message "m2" "Bob" at_10)] ∧
    inbox "s2" out
      = [joined (mkUser "u2" "Bob" "general" "s2") "general"
           (Some [welcome_message "m1" "Alice" at_10; welcome_message "m2" "Bob" at_10])
           [Some (mkUser "u1" "Alice" "general" "s1");
            Some (mkUser "u2" "Bob" "general" "s2")]].
Proof. eexists _, _. split; [vm_compute; reflexivity|]. split; vm_compute; reflexivity. Qed.

(** ** C5: a send is echoed to its sender *)

Lemma send_accepted_spec p t :
  send_accepted p = Some t ↔
  chat_message p = Some t ∧ trim t ≠ "" ∧ String.length t ≤ MAX_MESSAGE_LENGTH.
Proof.
  unfold send_accepted. destruct (chat_message p) as [t'|]; [|naive_solver].
  case_bool_decide; naive_solver.
Qed.

(** A send that passes validation and names a room with a log. *)
Lemma on_chatMessage_accepted x mid now p s u t r l :
  users s !! x = Some u → send_accepted p = Some t →
  chat_room p = Some r → messages s !! r = Some l →
  on_chatMessage x mid now p s =
  Done tt (with_messages <[r := l ++ [chat_message_of mid u t now]]> s)
    [mkEmission (ToRoom (Some r)) (newMessage (chat_message_of mid u t now))
       (room_sockets (sids s) (Some r))].
Proof.
  intros Hu (Ht & Hb & Hlen)%send_accepted_spec Hr Hl.
  rewrite on_chatMessage_eq, Hu, Ht, Hr, Hl.
  rewrite bool_decide_eq_false_2 by done.
  by rewrite bool_decide_eq_false_2 by lia.
Qed.

(** C5, as the code has it.  In a running server, a send that passes
    validation and names the room of the sender's session appends the
    message to that room's log and emits exactly one [newMessage]; it
    reaches every member of the room whose connection is open, the sender
    among them, and the sender receives it exactly once. *)
Theorem send_echoes_to_sender s x msgId now p u t :
  reachable s → users s !! x = Some u → send_accepted p = Some t →
  chat_room p = Some (user_room u) →
  ∃ s' to,
    let r := user_room u in
    let m := chat_message_of msgId u t now in
    let out := [mkEmission (ToRoom (Some r)) (newMessage m) to] in
    on_chatMessage x msgId now p s = Done tt s' out ∧
    room_log s' r = room_log s r ++ [m] ∧
    x ∈ to ∧
    (∀ y, live_member s r y → y ∈ to) ∧
    inbox x out = [newMessage m].
Proof.
  intros (Hc & Hs & Hm)%reachable_wf Hu Ht Hr.
  destruct (Hs x u Hu) as (Hin & rs & Hrs & Hrin).
  destruct (member_room_some _ _ _ Hin) as (l & Hl & _).
  destruct (Hc (user_room u)) as [lg Hlg]; [by rewrite Hl|].
  eexists _, _. cbn zeta.
  assert (Hx : x ∈ room_sockets (sids s) (Some (user_room u))).
  { apply elem_of_room_sockets. by exists rs. }
  split; [by apply on_chatMessage_accepted|].
  split; [|split; [|split]].
  - rewrite room_log_insert, decide_True by done. unfold room_log. by rewrite Hlg.
  - exact Hx.
  - intros y [Hy [rs' Hrs']]. apply elem_of_room_sockets. exists rs'.
    split; [done|]. by eapply Hm.
  - rewrite inbox_cons. cbn [em_to em_event]. by rewrite decide_True.
Qed.

Lemma send_echoes_to_sender_witness :
  ∃ s' to,
    let r := "general" in
    let m := chat_message_of "m3" (mkUser "u1" "Alice" "general" "s1") "hi" at_10 in
    let out := [mkEmission (ToRoom (Some r)) (newMessage m) to] in
    on_chatMessage "s1" "m3" at_10 (mkChat (Some "hi") (Some "general"))
      (state_of alice_bob_in_general) = Done tt s' out ∧
    room_log s' r = room_log (state_of alice_bob_in_general) r ++ [m] ∧
    "s1" ∈ to ∧
    (∀ y, live_member (state_of alice_bob_in_general) r y → y ∈ to) ∧
    inbox "s1" out = [newMessage m].
Proof.
  apply (send_echoes_to_sender (state_of alice_bob_in_general) "s1" "m3" at_10
           (mkChat (Some "hi") (Some "general"))
           (mkUser "u1" "Alice" "general" "s1") "hi").
  - apply reachable_state_of; [vm_compute; reflexivity | vm_compute; eexists; reflexivity].
  - vm_compute. reflexivity.
  - vm_compute. reflexivity.
  - reflexivity.
Defined.

(** C5 as stated fails: Alice, whose session is in "general", sends "hi"
    with room "random", where Bob is.  The send succeeds: the message is
    appended to the log of "random" and one [newMessage] is emitted; it
    reaches Bob's socket only, and Alice receives nothing. *)
Lemma send_to_other_room_no_echo :
  ∃ s',
    let m := chat_message_of "m3" (mkUser "u1" "Alice" "general" "s1") "hi" at_10 in
    let out := [mkEmission (ToRoom (Some "random")) (newMessage m) {["s2"]}] in
    reachable (state_of alice_general_bob_random) ∧
    on_chatMessage "s1" "m3" at_10 (mkChat (Some "hi") (Some "random"))
      (state_of alice_general_bob_random) = Done tt s' out ∧
    room_log s' "random" = [welcome_message "m2" "Bob" at_10; m] ∧
    inbox "s1" out = [] ∧
    inbox "s2" out = [newMessage m].
Proof.
  eexists. cbn zeta. split.
  { apply reachable_state_of; [vm_compute; reflexivity | vm_compute; eexists; reflexivity]. }
  split; [vm_compute; reflexivity|].
  split; [vm_compute; reflexivity|].
  split; vm_compute; reflexivity.
Qed.

(** ** C4: validation of a send *)

(** C4 as stated fails.  Alice, joined, sends 1001 spaces: the text is
    longer than 1000, but the send fails with "Message cannot be empty", not
    with the too-long error.  And she sends 1000 letters to a room nobody
    joined: the text has length exactly 1000, but nothing is appended or
    broadcast, the send fails for want of a log. *)
Lemma blank_text_of_1001_is_empty_not_too_long :
  String.length (replicate_string 1001 " ") = 1001 ∧
  users (state_of alice_in_general) !! "s1" = Some (mkUser "u1" "Alice" "general" "s1") ∧
  on_chatMessage "s1" "m2" at_10
    (mkChat (Some (replicate_string 1001 " ")) (Some "general"))
    (state_of alice_in_general)
  = Done tt (state_of alice_in_general)
      [mkEmission (ToSocket "s1") (error "Message cannot be empty") {["s1"]}] ∧
  on_chatMessage "s1" "m2" at_10
    (mkChat (Some (replicate_string 1001 " ")) (Some "general"))
    (state_of alice_in_general)
  ≠ Done tt (state_of alice_in_general)
      [mkEmission (ToSocket "s1") (error "Message too long (max 1000 chars)") {["s1"]}] ∧
  String.length (replicate_string 1000 "a") = 1000 ∧
  on_chatMessage "s1" "m2" at_10
    (mkChat (Some (replicate_string 1000 "a")) (Some "nowhere"))
    (state_of alice_in_general)
  = Done tt (state_of alice_in_general)
      [mkEmission (ToSocket "s1") (error "Failed to send message") {["s1"]}].
Proof.
  assert (E : on_chatMessage "s1" "m2" at_10
      (mkChat (Some (replicate_string 1001 " ")) (Some "general"))
      (state_of alice_in_general)
    = Done tt (state_of alice_in_general)
        [mkEmission (ToSocket "s1") (error "Message cannot be empty") {["s1"]}]).
  { rewrite on_chatMessage_eq.
    assert (users (state_of alice_in_general) !! "s1"
            = Some (mkUser "u1" "Alice" "general" "s1")) as -> by (vm_compute; reflexivity).
    cbn [chat_message].
    assert (trim (replicate_string 1001 " ") = "") as -> by (vm_compute; reflexivity).
    reflexivity. }
  split; [vm_compute; reflexivity|].
  split; [vm_compute; reflexivity|].
  split; [exact E|].
  split; [rewrite E; intros [=]|].
  split; vm_compute; reflexivity.
Qed.

(** C4, as the code has it.  For a send by a joined connection: it fails
    with "Message cannot be empty" exactly when the text is absent or its
    trimmed form is empty; it fails with the too-long error exactly when
    the trimmed text is not empty and the text as sent is longer than 1000;
    either failure changes no state.  A text of length 1000 with a
    non-empty trimmed form, sent to a room that has a log, is appended to
    that log and broadcast; one of length 1001 with a non-empty trimmed form
    fails with the too-long error. *)
Theorem send_validation s x msgId now p u :
  users s !! x = Some u →
  (text_blank p ↔
     on_chatMessage x msgId now p s = Done tt s (reports x "Message cannot be empty")) ∧
  (¬ text_blank p ∧ text_too_long p ↔
     on_chatMessage x msgId now p s
     = Done tt s (reports x "Message too long (max 1000 chars)")) ∧
  (∀ t r l, chat_message p = Some t → trim t ≠ "" → String.length t = 1000 →
     chat_room p = Some r → messages s !! r = Some l →
     on_chatMessage x msgId now p s
     = Done tt (with_messages <[r := l ++ [chat_message_of msgId u t now]]> s)
         [mkEmission (ToRoom (Some r)) (newMessage (chat_message_of msgId u t now))
            (room_sockets (sids s) (Some r))]) ∧
  (∀ t, chat_message p = Some t → trim t ≠ "" → String.length t = 1001 →
     on_chatMessage x msgId now p s
     = Done tt s (reports x "Message too long (max 1000 chars)")).
Proof.
  intros Hu. rewrite on_chatMessage_eq, Hu. unfold text_blank, text_too_long, reports.
  destruct (chat_message p) as [t|] eqn:Ht.
  2:{ split; [done|]. split; [|by split]. split; [naive_solver | intros [=]]. }
  destruct (decide (trim t = "")) as [Hb|Hb].
  { rewrite bool_decide_eq_true_2 by done.
    split; [done|]. split; [|split].
    - split; [naive_solver | intros [=]].
    - intros ? ? ? [= <-]. done.
    - intros ? [= <-]. done. }
  rewrite bool_decide_eq_false_2 by done.
  destruct (decide (MAX_MESSAGE_LENGTH < String.length t)) as [Hl|Hl].
  { rewrite bool_decide_eq_true_2 by done.
    split; [|split; [|split]].
    - split; [done | intros [=]].
    - done.
    - intros ? ? ? [= <-] _ Hlen. unfold MAX_MESSAGE_LENGTH in Hl. lia.
    - done. }
  rewrite bool_decide_eq_false_2 by done.
  split; [|split; [|split]].
  - split; [done|]. destruct (chat_room p) as [r|]; [|intros [=]].
    destruct (messages s !! r); cbn zeta; intros [=].
  - split; [naive_solver|]. destruct (chat_room p) as [r|]; [|intros [=]].
    destruct (messages s !! r); cbn zeta; intros [=].
  - intros t' r l [= <-] _ _ -> ->. reflexivity.
  - intros t' [= <-] _ Hlen. unfold MAX_MESSAGE_LENGTH in Hl. lia.
Qed.

Lemma send_validation_witness :
  (text_blank (mkChat (Some (replicate_string 1000 "a")) (Some "general")) ↔
     on_chatMessage "s1" "m2" at_10
       (mkChat (Some (replicate_string 1000 "a")) (Some "general"))
       (state_of alice_in_general)
     = Done tt (state_of alice_in_general) (reports "s1" "Message cannot be empty")) ∧
  (¬ text_blank (mkChat (Some (replicate_string 1000 "a")) (Some "general")) ∧
   text_too_long (mkChat (Some (replicate_string 1000 "a")) (Some "general")) ↔
     on_chatMessage "s1" "m2" at_10
       (mkChat (Some (replicate_string 1000 "a")) (Some "general"))
       (state_of alice_in_general)
     = Done tt (state_of alice_in_general)
         (reports "s1" "Message too long (max 1000 chars)")) ∧
  (∀ t r l,
     chat_message (mkChat (Some (replicate_string 1000 "a")) (Some "general")) = Some t →
     trim t ≠ "" → String.length t = 1000 →
     chat_room (mkChat (Some (replicate_string 1000 "a")) (Some "general")) = Some r →
     messages (state_of alice_in_general) !! r = Some l →
     on_chatMessage "s1" "m2" at_10
       (mkChat (Some (replicate_string 1000 "a")) (Some "general"))
       (state_of alice_in_general)
     = Done tt
         (with_messages
            <[r := l ++ [chat_message_of "m2" (mkUser "u1" "Alice" "general" "s1") t at_10]]>
            (state_of alice_in_general))
         [mkEmission (ToRoom (Some r))
            (newMessage (chat_message_of "m2" (mkUser "u1" "Alice" "general" "s1") t at_10))
            (room_sockets (sids (state_of alice_in_general)) (Some r))]) ∧
  (∀ t, chat_message (mkChat (Some (replicate_string 1000 "a")) (Some "general")) = Some t →
     trim t ≠ "" → String.length t = 1001 →
     on_chatMessage "s1" "m2" at_10
       (mkChat (Some (replicate_string 1000 "a")) (Some "general"))
       (state_of alice_in_general)
     = Done tt (state_of alice_in_general)
         (reports "s1" "Message too long (max 1000 chars)")).
Proof.
  apply (send_validation (state_of alice_in_general) "s1" "m2" at_10
           (mkChat (Some (replicate_string 1000 "a")) (Some "general"))
           (mkUser "u1" "Alice" "general" "s1")).
  vm_compute. reflexivity.
Defined.

(** The two boundary cases of the specification, evaluated. *)
Example send_1000_succeeds :
  ∃ s' m,
    on_chatMessage "s1" "m2" at_10
      (mkChat (Some (replicate_string 1000 "a")) (Some "general"))
      (state_of alice_in_general)
    = Done tt s' [mkEmission (ToRoom (Some "general")) (newMessage m) {["s1"]}] ∧
    room_log s' "general" = [welcome_message "m1" "Alice" at_10; m] ∧
    String.length (msg_text m) = 1000.
Proof.
  eexists _, _. split; [vm_compute; reflexivity|]. split; vm_compute; reflexivity.
Qed.

Example send_1001_too_long :
  on_chatMessage "s1" "m2" at_10
    (mkChat (Some (replicate_string 1001 "a")) (Some "general"))
    (state_of alice_in_general)
  = Done tt (state_of alice_in_general)
      (reports "s1" "Message too long (max 1000 chars)").
Proof. vm_compute. reflexivity. Qed.

(** ** C8: the stored display name *)

Lemma join_accepted_spec p u r :
  join_accepted p = Some (u, r) ↔
  join_username p = Some u ∧ join_room p = Some r ∧
  u ≠ "" ∧ r ≠ "" ∧ String.length u ≤ 20.
Proof.
  unfold join_accepted.
  destruct (join_username p) as [u'|]; [|naive_solver].
  destruct (join_room p) as [r'|]; [|naive_solver].
  case_bool_decide; naive_solver.
Qed.

Lemma length_nonempty (t : string) : t ≠ "" → 1 ≤ String.length t.
Proof. destruct t; [done|]. cbn. lia. Qed.




(** ** C10: failing sends stay with their sender *)



(** Every send either fails as above or is appended and broadcast: there is
    no third outcome, and in particular no exception leaves the handler. *)
Lemma send_outcomes s x msgId now p :
  send_rejected s x p ∨
  ∃ u t r l,
    users s !! x = Some u ∧ send_accepted p = Some t ∧
    chat_room p = Some r ∧ messages s !! r = Some l ∧
    on_chatMessage x msgId now p s =
    Done tt (with_messages <[r := l ++ [chat_message_of msgId u t now]]> s)
      [mkEmission (ToRoom (Some r)) (newMessage (chat_message_of msgId u t now))
         (room_sockets (sids s) (Some r))].
Proof.
  unfold send_rejected, text_blank, text_too_long.
  destruct (users s !! x) as [u|] eqn:Hu; [|by left; left].
  destruct (chat_message p) as [t|] eqn:Ht; [|by left; right; left].
  destruct (decide (trim t = "")) as [Hb|Hb]; [by left; right; left|].
  destruct (decide (MAX_MESSAGE_LENGTH < String.length t)) as [Hl|Hl];
    [by left; right; right; left|].
  destruct (chat_room p) as [r|] eqn:Hr; [|by left; right; right; right].
  destruct (messages s !! r) as [l|] eqn:Hlg;
    [|left; right; right; right; cbn; by rewrite Hlg].
  right. exists u, t, r, l.
  assert (Ha : send_accepted p = Some t).
  { apply send_accepted_spec. split; [done|]. split; [done | lia]. }
  split; [done|]. split; [done|]. split; [done|]. split; [done|].
  by apply on_chatMessage_accepted.
Qed.

(** The four failures of a send, evaluated. *)
Example send_failures :
  on_chatMessage "s9" "m2" at_10 (mkChat (Some "hi") (Some "general"))
    (state_of alice_in_general)
  = Done tt (state_of alice_in_general) (reports "s9" "User not found") ∧
  on_chatMessage "s1" "m2" at_10 (mkChat (Some "  ") (Some "general"))
    (state_of alice_in_general)
  = Done tt (state_of alice_in_general) (reports "s1" "Message cannot be empty") ∧
  on_chatMessage "s1" "m2" at_10 (mkChat None (Some "general"))
    (state_of alice_in_general)
  = Done tt (state_of alice_in_general) (reports "s1" "Message cannot be empty") ∧
  on_chatMessage "s1" "m2" at_10 (mkChat (Some "hi") (Some "nowhere"))
    (state_of alice_in_general)
  = Done tt (state_of alice_in_general) (reports "s1" "Failed to send message") ∧
  on_chatMessage "s1" "m2" at_10 (mkChat (Some "hi") None)
    (state_of alice_in_general)
  = Done tt (state_of alice_in_general) (reports "s1" "Failed to send message").
Proof. repeat split; vm_compute; reflexivity. Qed.

(** ** C2: a second join on the same connection *)

(** A second join that passes validation is carried out like a first one:
    the session is replaced, and the connection stays in the member set of
    the room of the replaced session. *)
Lemma rejoin_keeps_previous_membership s x userId msgId now p u name r :
  users s !! x = Some u → x ∈ room_members s (user_room u) →
  join_accepted p = Some (name, r) →
  ∃ s' out,
    on_join x userId msgId now p s = Done tt s' out ∧
    join_succeeds out ∧
    users s' !! x = Some (mkUser userId name r x) ∧
    x ∈ room_members s' (user_room u).
Proof.
  intros Hu Hin Hp.
  rewrite (on_join_accepted _ _ _ _ _ _ _ _ Hp), join_body_eq. cbn zeta.
  eexists _, _. split; [reflexivity|]. split.
  { eexists. split; [apply list_elem_of_here | reflexivity]. }
  split; [cbn [join_state users]; by rewrite lookup_insert_eq|].
  rewrite room_members_join. case_decide as Hk; [|done].
  rewrite <- Hk. apply elem_of_set_add. by right.
Qed.

(** C2, on the code.  Alice joins "general" and then, on the same
    connection, "random".  The second join is not turned down (it sends the
    [joined] snapshot and no error) and no leave is carried out: the session
    now names "random", the connection is still in the member set of
    "general", and no leave message was appended to the log of "general". *)
Theorem rejoin_leaves_stale_member :
  ∃ s out,
    on_join "s1" "u3" "m3" at_10 (mkJoin (Some "Alice") (Some "random"))
      (state_of alice_in_general) = Done tt s out ∧
    reachable (state_of alice_in_general) ∧
    users (state_of alice_in_general) !! "s1" = Some (mkUser "u1" "Alice" "general" "s1") ∧
    join_succeeds out ∧
    inbox "s1" out
      = [joined (mkUser "u3" "Alice" "random" "s1") "random"
           (Some [welcome_message "m3" "Alice" at_10])
           [Some (mkUser "u3" "Alice" "random" "s1")]] ∧
    users s !! "s1" = Some (mkUser "u3" "Alice" "random" "s1") ∧
    room_members s "general" = ["s1"] ∧
    room_members s "random" = ["s1"] ∧
    room_log s "general" = [welcome_message "m1" "Alice" at_10].
Proof.
  eexists _, _. split; [vm_compute; reflexivity|].
  split.
  { apply reachable_state_of; [vm_compute; reflexivity | vm_compute; eexists; reflexivity]. }
  split; [vm_compute; reflexivity|].
  split.
  { eexists. split; [apply list_elem_of_here | reflexivity]. }
  repeat split; vm_compute; reflexivity.
Qed.

(** What the stale member does later: after Alice, who went on to "random",
    disconnects, "general" still lists her closed connection; Bob then joins
    "general" and the member list of his snapshot has no user for it. *)
Example stale_member_after_disconnect :
  ∃ s out,
    run (alice_rejoins ++ [Disconnect "s1" "m4" at_10; Connect "s2";
                            Join "s2" "u2" "m2" at_10 (mkJoin (Some "Bob") (Some "general"))])
      init = Done tt s out ∧
    room_members s "general" = ["s1"; "s2"] ∧
    users s !! "s1" = None ∧
    sids s !! "s1" = None ∧
    inbox "s2" out
      = [joined (mkUser "u2" "Bob" "general" "s2") "general"
           (Some [welcome_message "m1" "Alice" at_10; welcome_message "m2" "Bob" at_10])
           [None; Some (mkUser "u2" "Bob" "general" "s2")]].
Proof. eexists _, _. split; [vm_compute; reflexivity|]. repeat split; vm_compute; reflexivity. Qed.

(** * Further properties of the handlers *)

(** ** Every operation takes one of the paths of [step] *)

Lemma send_rejected_reports s x mid now p :
  send_rejected s x p → ∃ msg, on_chatMessage x mid now p s = Done tt s (reports x msg).
Proof.
  intros Hrej. rewrite on_chatMessage_eq.
  unfold send_rejected, text_blank, text_too_long in Hrej.
  destruct (users s !! x) as [u|]; [|by eexists].
  destruct (chat_message p) as [t|]; [|by eexists].
  case_bool_decide as Hb; [by eexists|].
  case_bool_decide as Hl; [by eexists|].
  destruct (chat_room p) as [r|]; [|by eexists].
  cbn [map_get mbind option_bind] in Hrej.
  destruct (messages s !! r) as [l|]; [|by eexists].
  exfalso. naive_solver.
Qed.

Lemma not_member_set_has s r x l :
  rooms s !! r = Some l → set_has x l = false → x ∉ room_members s r.
Proof.
  intros Hl Hx. unfold room_members. rewrite Hl. cbn.
  intros Hin%set_has_true. congruence.
Qed.

Lemma dispatch_step o s :
  logs_cover s → ∃ s' out, dispatch o s = Done tt s' out ∧ step o s s' out.
Proof.
  intros Hc. destruct o as [x|x uid mid now p|x mid now p|x p|x mid now].
  - eexists _, _. split; [reflexivity | constructor].
  - cbn [dispatch]. destruct (join_accepted p) as [[u r]|] eqn:Hp.
    + rewrite (on_join_accepted _ _ _ _ _ _ _ _ Hp), join_body_eq.
      eexists _, _. split; [reflexivity | by constructor].
    + destruct (on_join_rejected x uid mid now p s Hp) as [msg ->].
      eexists _, _. split; [reflexivity | by constructor].
  - cbn [dispatch]. destruct (send_outcomes s x mid now p) as [Hrej|Hacc].
    + destruct (send_rejected_reports s x mid now p Hrej) as [msg ->].
      eexists _, _. split; [reflexivity | by constructor].
    + destruct Hacc as (u & t & r & l & Hu & Ht & Hr & Hl & ->).
      eexists _, _. split; [reflexivity | by econstructor].
  - cbn [dispatch]. rewrite on_typing_eq.
    destruct (users s !! x) as [u|] eqn:Hu;
      eexists _, _; (split; [reflexivity | by constructor]).
  - rewrite dispatch_disconnect_eq, on_disconnect_eq.
    cbn [with_sids users rooms messages sids].
    destruct (users s !! x) as [u|] eqn:Hu; cbn zeta.
    2:{ eexists _, _. split; [reflexivity | by constructor]. }
    destruct (rooms s !! user_room u) as [l|] eqn:Hl.
    2:{ eexists _, _. split; [reflexivity|]. apply (step_disconnect_not_member _ _ _ u); [done|].
        unfold room_members. rewrite Hl. apply not_elem_of_nil. }
    destruct (set_has x l) eqn:Hx.
    2:{ eexists _, _. split; [reflexivity|]. apply (step_disconnect_not_member _ _ _ u); [done|].
        by eapply not_member_set_has. }
    destruct (Hc (user_room u)) as [lg Hlg]; [by rewrite Hl|]. rewrite Hlg.
    eexists _, _. split; [reflexivity|].
    apply step_disconnect; [done | done | by apply set_has_true | done].
Qed.

(** A property that holds of the empty server and is kept by every path of
    every handler holds after every sequence of operations, and the sequence
    runs to its end. *)
Lemma run_invariant (P : state → Prop) :
  P init →
  (∀ o s s' out, logs_cover s → P s → step o s s' out → P s') →
  ∀ ops, ∃ s out, run ops init = Done tt s out ∧ P s.
Proof.
  intros Hinit Hstep ops.
  assert (H : ∀ s, logs_cover s → P s →
            ∃ s' out, run ops s = Done tt s' out ∧ P s').
  { induction ops as [|o ops IH]; intros s Hc HP.
    - by eexists _, _.
    - destruct (dispatch_step o s Hc) as (s1 & o1 & E1 & St).
      destruct (dispatch_total o s Hc) as (s1' & o1' & E1' & Hc1 & _).
      rewrite E1 in E1'. injection E1' as <- <-.
      destruct (IH s1 Hc1 (Hstep _ _ _ _ Hc HP St)) as (s2 & o2 & E2 & HP2).
      rewrite run_cons, E1, E2. by eexists _, _. }
  apply H; [apply logs_cover_init | exact Hinit].
Qed.

Lemma done_step o s s' out : dispatch o s = Done tt s' out → step o s s' out.
Proof.
  destruct o as [x|x uid mid now p|x mid now p|x p|x mid now].
  - intros [= <- <-]. constructor.
  - cbn [dispatch]. destruct (join_accepted p) as [[u r]|] eqn:Hp.
    + rewrite (on_join_accepted _ _ _ _ _ _ _ _ Hp), join_body_eq.
      intros [= <- <-]. by constructor.
    + destruct (on_join_rejected x uid mid now p s Hp) as [msg ->].
      intros [= <- <-]. by constructor.
  - cbn [dispatch]. destruct (send_outcomes s x mid now p) as [Hrej|Hacc].
    + destruct (send_rejected_reports s x mid now p Hrej) as [msg ->].
      intros [= <- <-]. by constructor.
    + destruct Hacc as (u & t & r & l & Hu & Ht & Hr & Hl & ->).
      intros [= <- <-]. by econstructor.
  - cbn [dispatch]. rewrite on_typing_eq.
    destruct (users s !! x) as [u|] eqn:Hu; intros [= <- <-]; by constructor.
  - rewrite dispatch_disconnect_eq, on_disconnect_eq.
    cbn [with_sids users rooms messages sids].
    destruct (users s !! x) as [u|] eqn:Hu; cbn zeta.
    2:{ intros [= <- <-]. by constructor. }
    destruct (rooms s !! user_room u) as [l|] eqn:Hl.
    2:{ intros [= <- <-]. apply (step_disconnect_not_member _ _ _ u); [done|].
        unfold room_members. rewrite Hl. apply not_elem_of_nil. }
    destruct (set_has x l) eqn:Hx.
    2:{ intros [= <- <-]. apply (step_disconnect_not_member _ _ _ u); [done|].
        by eapply not_member_set_has. }
    destruct (messages s !! user_room u) as [lg|] eqn:Hlg; [|discriminate].
    intros [= <- <-].
    apply step_disconnect; [done | done | by apply set_has_true | done].
Qed.

(** ** [trim] *)

Lemma append_cons a (s1 s2 : string) : String a s1 +:+ s2 = String a (s1 +:+ s2).
Proof. reflexivity. Qed.

Lemma append_nil_r (s : string) : s +:+ "" = s.
Proof. induction s as [|a s IH]; [done|]. by rewrite append_cons, IH. Qed.

Lemma append_assoc (s1 s2 s3 : string) : (s1 +:+ s2) +:+ s3 = s1 +:+ (s2 +:+ s3).
Proof. induction s1 as [|a s1 IH]; [done|]. by rewrite !append_cons, IH. Qed.

Lemma length_append (s1 s2 : string) :
  String.length (s1 +:+ s2) = String.length s1 + String.length s2.
Proof. induction s1 as [|a s1 IH]; [done|]. rewrite append_cons. cbn. by rewrite IH. Qed.

Lemma rev_app_append s acc1 acc2 :
  String.rev_app s (acc1 +:+ acc2) = String.rev_app s acc1 +:+ acc2.
Proof.
  revert acc1. induction s as [|a s IH]; intros acc1; [done|].
  cbn [String.rev_app]. apply (IH (String a acc1)).
Qed.

Lemma rev_cons a s : String.rev (String a s) = String.rev s +:+ String a "".
Proof. unfold String.rev. cbn [String.rev_app]. apply (rev_app_append s "" (String a "")). Qed.

Lemma rev_append s1 s2 : String.rev (s1 +:+ s2) = String.rev s2 +:+ String.rev s1.
Proof.
  induction s1 as [|a s1 IH].
  - change (String.rev s2 = String.rev s2 +:+ ""). by rewrite append_nil_r.
  - change (String a s1 +:+ s2) with (String a (s1 +:+ s2)).
    by rewrite !rev_cons, IH, append_assoc.
Qed.

Lemma rev_involutive s : String.rev (String.rev s) = s.
Proof.
  induction s as [|a s IH]; [done|].
  by rewrite rev_cons, rev_append, IH.
Qed.

Lemma length_rev s : String.length (String.rev s) = String.length s.
Proof.
  induction s as [|a s IH]; [done|].
  rewrite rev_cons, length_append, IH. cbn. lia.
Qed.

Lemma rev_empty s : String.rev s = "" ↔ s = "".
Proof.
  split; [|by intros ->]. intros H.
  apply (f_equal String.length) in H. rewrite length_rev in H. by destruct s.
Qed.

Lemma length_trim_start s : String.length (trim_start s) ≤ String.length s.
Proof.
  induction s as [|a s IH]; [done|]. cbn.
  destruct (is_js_space a); cbn; lia.
Qed.

Lemma trim_start_idemp s : trim_start (trim_start s) = trim_start s.
Proof.
  induction s as [|a s IH]; [done|]. cbn.
  destruct (is_js_space a) eqn:Ha; [done|]. cbn. by rewrite Ha.
Qed.

Lemma trim_start_append s1 s2 :
  trim_start (s1 +:+ s2) =
  if decide (trim_start s1 = "") then trim_start s2 else trim_start s1 +:+ s2.
Proof.
  induction s1 as [|a s1 IH]; [done|].
  change (String a s1 +:+ s2) with (String a (s1 +:+ s2)). cbn [trim_start].
  destruct (is_js_space a); [exact IH|]. by rewrite decide_False.
Qed.

Lemma trim_end_cons a s :
  trim_end (String a s) =
  if decide (trim_end s = "") then (if is_js_space a then "" else String a "")
  else String a (trim_end s).
Proof.
  unfold trim_end. rewrite rev_cons, trim_start_append.
  destruct (decide (trim_start (String.rev s) = "")) as [H|H].
  - rewrite decide_True by by apply rev_empty.
    cbn [trim_start]. by destruct (is_js_space a).
  - rewrite decide_False by by rewrite rev_empty.
    by rewrite rev_append.
Qed.

Lemma trim_end_idemp s : trim_end (trim_end s) = trim_end s.
Proof. unfold trim_end. by rewrite rev_involutive, trim_start_idemp. Qed.

Lemma trim_start_trim_end s :
  trim_start s = s → trim_start (trim_end s) = trim_end s.
Proof.
  destruct s as [|a s]; [done|]. intros H.
  assert (Ha : is_js_space a = false).
  { destruct (is_js_space a) eqn:Ha; [|done]. cbn in H. rewrite Ha in H.
    pose proof (length_trim_start s) as Hl. rewrite H in Hl. cbn in Hl. lia. }
  rewrite trim_end_cons. case_decide; rewrite ?Ha; cbn [trim_start]; by rewrite Ha.
Qed.

Lemma trim_idemp s : trim (trim s) = trim s.
Proof.
  unfold trim.
  rewrite (trim_start_trim_end (trim_start s)) by apply trim_start_idemp.
  apply trim_end_idemp.
Qed.

Lemma length_trim s : String.length (trim s) ≤ String.length s.
Proof.
  unfold trim, trim_end. rewrite length_rev.
  etrans; [apply length_trim_start|]. rewrite length_rev. apply length_trim_start.
Qed.

(** ** What an operation appends and what it announces *)

Lemma entry_ok_system id text now : entry_ok (system_message id text now).
Proof. reflexivity. Qed.

Lemma entry_ok_chat p t mid u now :
  send_accepted p = Some t → entry_ok (chat_message_of mid u t now).
Proof.
  intros (_ & Hb & Hlen)%send_accepted_spec. unfold entry_ok. cbn.
  split; [apply trim_idemp|]. split; [by apply length_nonempty|].
  etrans; [apply length_trim | exact Hlen].
Qed.

Lemma announced_to_reports r x msg : announced_to r (reports x msg) = [].
Proof. reflexivity. Qed.

Lemma announced_to_room k r x e to m :
  carried e = Some m →
  announced_to k [mkEmission (ToRoomExcept (Some r) x) e to] = (if decide (k = r) then [m] else []) ∧
  announced_to k [mkEmission (ToRoom (Some r)) e to] = (if decide (k = r) then [m] else []).
Proof.
  intros He. unfold announced_to. cbn. rewrite He.
  destruct (decide (k = r)) as [->|Hk].
  - by rewrite bool_decide_eq_true_2.
  - rewrite bool_decide_eq_false_2; [done | congruence].
Qed.

(** An operation leaves the logs alone and announces no message, or appends
    one well-formed message to one log and announces it to that room once and
    to no other room.  A log that did not exist begins with a join message. *)
Lemma step_log o s s' out :
  step o s s' out →
  (messages s' = messages s ∧ ∀ k, announced_to k out = []) ∨
  (∃ r m,
     messages s' = <[r := room_log s r ++ [m]]> (messages s) ∧
     (∀ k, announced_to k out = if decide (k = r) then [m] else []) ∧
     entry_ok m ∧
     (messages s !! r = None → ∃ id name now, m = welcome_message id name now)).
Proof.
  destruct 1 as [x s|x uid mid now p u r s Hp|x uid mid now p msg s Hp
                |x mid now p u t r l s Hu Ht Hr Hl|x mid now p msg s Hrej
                |x p u s Hu|x p s Hu|x mid now u l lg s Hu Hl Hx Hlg
                |x mid now u s Hu Hx|x mid now s Hu].
  - by left.
  - right. exists r, (welcome_message mid u now). split; [done|]. split.
    + intros k. change (announced_to k ?l) with
        (announced_to k [mkEmission (ToRoomExcept (Some r) x)
           (userJoined (mkUser uid u r x) (welcome_message mid u now))
           (room_sockets (sids (join_state x uid mid now u r s)) (Some r) ∖ {[x]})]).
      by apply announced_to_room.
    + split; [apply entry_ok_system | by eexists _, _, _].
  - by left.
  - right. exists r, (chat_message_of mid u t now). split.
    { cbn [with_messages messages]. unfold room_log. by rewrite Hl. }
    split; [intros k; by apply announced_to_room|].
    split; [by eapply entry_ok_chat | congruence].
  - by left.
  - left. split; [done|]. intros k. unfold announced_to. cbn. by case_bool_decide.
  - by left.
  - right. exists (user_room u), (leave_message mid (user_username u) now). split.
    { cbn [messages]. unfold room_log. by rewrite Hlg. }
    split; [intros k; by apply announced_to_room|].
    split; [apply entry_ok_system | congruence].
  - by left.
  - by left.
Qed.

Lemma step_room_log o s s' out k :
  step o s s' out → room_log s' k = room_log s k ++ announced_to k out.
Proof.
  intros [[Hm Ha]|(r & m & Hm & Ha & _)]%step_log; unfold room_log at 1; rewrite Hm, Ha.
  - by rewrite app_nil_r.
  - destruct (decide (k = r)) as [->|Hk].
    + by rewrite lookup_insert_eq.
    + rewrite lookup_insert_ne by done. by rewrite app_nil_r.
Qed.

Lemma announced_to_app k out1 out2 :
  announced_to k (out1 ++ out2) = announced_to k out1 ++ announced_to k out2.
Proof. apply omap_app. Qed.

Lemma run_room_log ops s k :
  logs_cover s →
  ∃ s' out, run ops s = Done tt s' out ∧
            room_log s' k = room_log s k ++ announced_to k out.
Proof.
  revert s. induction ops as [|o ops IH]; intros s Hc.
  - eexists _, _. split; [reflexivity|]. cbn. by rewrite app_nil_r.
  - destruct (dispatch_total o s Hc) as (s1 & o1 & E1 & Hc1 & _).
    destruct (IH s1 Hc1) as (s2 & o2 & E2 & L2).
    rewrite run_cons, E1, E2. eexists _, _. split; [reflexivity|].
    rewrite L2, (step_room_log o s s1 o1 k (done_step _ _ _ _ E1)).
    by rewrite announced_to_app, app_assoc.
Qed.

(** ** X1: the log of a room is what was broadcast to it *)

(** X1. After any sequence of operations on the empty server, the log of
    every room (what [GET /api/rooms/:room/messages] answers) is the list of
    the messages carried by the [userJoined], [newMessage] and [userLeft]
    events that were addressed to that room, in the order they were emitted:
    nothing is stored without being announced and nothing is announced without
    being stored. *)
Theorem log_is_what_was_broadcast ops r :
  ∃ s out, run ops init = Done tt s out ∧ room_log s r = announced_to r out.
Proof.
  destruct (run_room_log ops init r logs_cover_init) as (s & out & E & L).
  exists s, out. split; [exact E|]. rewrite L. unfold room_log, init. cbn [messages].
  by rewrite lookup_empty.
Qed.

(** ** X2: what a late joiner is shown *)

(** X2. When a socket joins a room after any sequence of operations, the
    [messages] of the [joined] snapshot it receives are the messages that were
    broadcast to that room so far, in order, followed by the system message
    of its own join. *)
Theorem snapshot_is_history ops x userId msgId now p u r :
  join_accepted p = Some (u, r) →
  ∃ s out s' out' lg us,
    run ops init = Done tt s out ∧
    on_join x userId msgId now p s = Done tt s' out' ∧
    inbox x out' = [joined (mkUser userId u r x) r (Some lg) us] ∧
    lg = announced_to r out ++ [welcome_message msgId u now].
Proof.
  intros Hp.
  destruct (run_room_log ops init r logs_cover_init) as (s & out & E & L).
  exists s, out. rewrite (on_join_accepted _ _ _ _ _ _ _ _ Hp), join_body_eq. cbn zeta.
  eexists _, _, _, _. split; [exact E|]. split; [reflexivity|]. split.
  - rewrite !inbox_cons. cbn [em_to em_event].
    rewrite decide_True by set_solver. rewrite decide_False by set_solver. reflexivity.
  - rewrite room_log_join, decide_True by done. rewrite L.
    unfold room_log, init. cbn [messages]. by rewrite lookup_empty.
Qed.

Lemma snapshot_is_history_witness :
  ∃ s out s' out' lg us,
    run (alice_in_general ++
         [ChatMessage "s1" "m2" at_10 (mkChat (Some "hello") (Some "general"));
          Connect "s2"]) init = Done tt s out ∧
    on_join "s2" "u2" "m3" at_10 (mkJoin (Some "Bob") (Some "general")) s = Done tt s' out' ∧
    inbox "s2" out' = [joined (mkUser "u2" "Bob" "general" "s2") "general" (Some lg) us] ∧
    lg = announced_to "general" out ++ [welcome_message "m3" "Bob" at_10].
Proof.
  apply (snapshot_is_history
           (alice_in_general ++
            [ChatMessage "s1" "m2" at_10 (mkChat (Some "hello") (Some "general"));
             Connect "s2"])
           "s2" "u2" "m3" at_10 (mkJoin (Some "Bob") (Some "general")) "Bob" "general").
  vm_compute. reflexivity.
Defined.

(** ** Invariants of the logs *)

(** A property of logs that holds of a log with a single join message and
    is kept when a well-formed entry is appended holds of every log, after
    every sequence of operations. *)
Lemma logs_invariant (Q : list message → Prop) :
  (∀ id name now, Q [welcome_message id name now]) →
  (∀ l m, Q l → entry_ok m → Q (l ++ [m])) →
  ∀ ops, ∃ s out, run ops init = Done tt s out ∧
                  ∀ r l, messages s !! r = Some l → Q l.
Proof.
  intros Hnew Happ.
  apply (run_invariant (λ s, ∀ r l, messages s !! r = Some l → Q l)).
  { intros r l H. unfold init in H. cbn [messages] in H. by rewrite lookup_empty in H. }
  intros o s s' out _ HP [[Hm _]|(r & m & Hm & _ & Hok & Hfirst)]%step_log k l;
    rewrite Hm; [apply HP|].
  destruct (decide (k = r)) as [->|Hk].
  - rewrite lookup_insert_eq. intros [= <-]. unfold room_log.
    destruct (messages s !! r) as [l0|] eqn:Hl0; cbn.
    + apply Happ; [by apply (HP r) | done].
    + destruct (Hfirst eq_refl) as (id & name & now & ->). apply Hnew.
  - rewrite lookup_insert_ne by done. apply HP.
Qed.

(** X3. After any sequence of operations, every entry of every log is
    either a system message signed by the system author, or a chat message
    whose text is already trimmed and has between 1 and 1000 characters. *)
Theorem stored_messages_well_formed ops :
  ∃ s out, run ops init = Done tt s out ∧
           ∀ r m, m ∈ room_log s r → entry_ok m.
Proof.
  destruct (logs_invariant (Forall entry_ok)) with (ops := ops) as (s & out & E & H).
  - intros id name now. apply Forall_singleton, entry_ok_system.
  - intros l m Hl Hm. apply Forall_app. split; [done | by apply Forall_singleton].
  - exists s, out. split; [exact E|]. intros r m. unfold room_log.
    destruct (messages s !! r) as [l|] eqn:Hl; cbn.
    + intros Hin. by apply (proj1 (Forall_forall _ _) (H r l Hl)).
    + by intros ?%not_elem_of_nil.
Qed.

Lemma rooms_logs_same_keys ops :
  ∃ s out, run ops init = Done tt s out ∧ dom (rooms s) = dom (messages s).
Proof.
  apply (run_invariant (λ s, dom (rooms s) = dom (messages s))); [done|].
  intros o s s' out _ HP.
  destruct 1 as [x s|x uid mid now p u r s Hp|x uid mid now p msg s Hp
                |x mid now p u t r l s Hu Ht Hr Hl|x mid now p msg s Hrej
                |x p u s Hu|x p s Hu|x mid now u l lg s Hu Hl Hx Hlg
                |x mid now u s Hu Hx|x mid now s Hu]; try exact HP.
  - cbn [join_state rooms messages]. rewrite !dom_insert_L. by rewrite HP.
  - cbn [with_messages rooms messages]. rewrite dom_insert_L.
    apply (elem_of_dom_2 (messages s)) in Hl. set_solver.
  - cbn [rooms messages]. rewrite !dom_insert_L. by rewrite HP.
Qed.


(** ** Invariants of the registry and of the member sets *)

Lemma NoDup_set_add x l : NoDup l → NoDup (set_add x l).
Proof.
  intros Hl. unfold set_add. case_bool_decide as Hx; [done|].
  apply NoDup_app. split; [done|]. split; [|apply NoDup_singleton].
  intros y Hy ->%list_elem_of_singleton. done.
Qed.

Lemma NoDup_room_members_step o s s' out :
  (∀ r, NoDup (room_members s r)) → step o s s' out → ∀ r, NoDup (room_members s' r).
Proof.
  intros HP.
  destruct 1 as [x s|x uid mid now p u r s Hp|x uid mid now p msg s Hp
                |x mid now p u t r l s Hu Ht Hr Hl|x mid now p msg s Hrej
                |x p u s Hu|x p s Hu|x mid now u l lg s Hu Hl Hx Hlg
                |x mid now u s Hu Hx|x mid now s Hu]; try exact HP.
  - intros k. rewrite room_members_join. case_decide; [|apply HP].
    apply NoDup_set_add, HP.
  - intros k. unfold room_members. cbn [rooms].
    destruct (decide (k = user_room u)) as [->|Hk].
    + rewrite lookup_insert_eq. cbn. apply NoDup_filter.
      specialize (HP (user_room u)). unfold room_members in HP. by rewrite Hl in HP.
    + rewrite lookup_insert_ne by done. apply HP.
Qed.

Lemma session_ok_step o s s' out :
  (∀ x u, users s !! x = Some u → session_ok s x u) → step o s s' out →
  ∀ x u, users s' !! x = Some u → session_ok s' x u.
Proof.
  intros HP.
  destruct 1 as [x s|x uid mid now p u r s Hp|x uid mid now p msg s Hp
                |x mid now p u t r l s Hu Ht Hr Hl|x mid now p msg s Hrej
                |x p u s Hu|x p s Hu|x mid now u l lg s Hu Hl Hx Hlg
                |x mid now u s Hu Hx|x mid now s Hu]; try exact HP.
  - intros y v Hy. cbn [join_state users] in Hy. unfold session_ok.
    rewrite room_members_join. cbn [join_state messages].
    apply join_accepted_spec in Hp as (_ & _ & Hne & Hrne & Hlen).
    destruct (decide (x = y)) as [->|Hxy].
    + rewrite lookup_insert_eq in Hy. injection Hy as <-. cbn.
      rewrite decide_True by done. rewrite lookup_insert_eq.
      split; [done|]. split; [split; [by apply length_nonempty | done]|].
      split; [done|]. split; [apply elem_of_set_add; by left | done].
    + rewrite lookup_insert_ne in Hy by done.
      destruct (HP y v Hy) as (H1 & H2 & H3 & H4 & H5).
      split; [done|]. split; [done|]. split; [done|]. split.
      * case_decide as Hk; [|done]. rewrite <- Hk. apply elem_of_set_add. by right.
      * destruct (decide (r = user_room v)) as [->|Hk].
        -- by rewrite lookup_insert_eq.
        -- by rewrite lookup_insert_ne.
  - intros y v Hy. destruct (HP y v Hy) as (H1 & H2 & H3 & H4 & H5).
    split; [done|]. split; [done|]. split; [done|]. split; [done|].
    cbn [with_messages messages].
    destruct (decide (r = user_room v)) as [->|Hk].
    + by rewrite lookup_insert_eq.
    + by rewrite lookup_insert_ne.
  - intros y v Hy. cbn [users] in Hy.
    destruct (decide (x = y)) as [->|Hxy]; [by rewrite lookup_delete_eq in Hy|].
    rewrite lookup_delete_ne in Hy by done.
    destruct (HP y v Hy) as (H1 & H2 & H3 & H4 & H5).
    split; [done|]. split; [done|]. split; [done|]. split.
    + unfold room_members. cbn [rooms].
      destruct (decide (user_room u = user_room v)) as [Hk|Hk].
      * rewrite Hk, lookup_insert_eq. cbn. apply elem_of_set_delete.
        split; [|done]. unfold room_members in H4. by rewrite <- Hk, Hl in H4.
      * by rewrite lookup_insert_ne.
    + cbn [messages]. destruct (decide (user_room u = user_room v)) as [Hk|Hk].
      * by rewrite Hk, lookup_insert_eq.
      * by rewrite lookup_insert_ne.
  - intros y v Hy. cbn [with_users with_sids users] in Hy.
    destruct (decide (x = y)) as [->|Hxy]; [by rewrite lookup_delete_eq in Hy|].
    rewrite lookup_delete_ne in Hy by done. by apply HP.
Qed.


Lemma size_sessions_in s r :
  (∀ x u, users s !! x = Some u → session_ok s x u) →
  NoDup (room_members s r) →
  size (sessions_in s r) ≤ userCount s r.
Proof.
  intros Hs Hnd. unfold userCount.
  rewrite <- size_dom, <- (size_list_to_set (C := gset string) (room_members s r)) by done.
  apply subseteq_size. intros x Hx. apply elem_of_list_to_set.
  apply elem_of_dom in Hx as [u Hu]. unfold sessions_in in Hu.
  apply map_lookup_filter_Some in Hu as [Hu Hr]. cbn in Hr.
  destruct (Hs x u Hu) as (_ & _ & _ & Hin & _). by rewrite Hr in Hin.
Qed.

(** X6. After any sequence of operations, [GET /api/rooms] lists exactly the
    rooms that have a log; the [userCount] of a listed room counts every
    socket of its member set once, and is at least the number of sessions
    whose room it is. *)
Theorem api_rooms_lists_rooms_with_history ops :
  ∃ s out, run ops init = Done tt s out ∧
           dom (api_rooms s) = dom (messages s) ∧
           ∀ r n, api_rooms s !! r = Some n →
                  n = size (list_to_set (room_members s r) : gset string) ∧
                  size (sessions_in s r) ≤ n.
Proof.
  destruct (rooms_logs_same_keys ops) as (s & out & E & Hdom).
  destruct (run_invariant (λ s,
      (∀ r, NoDup (room_members s r)) ∧
      (∀ x u, users s !! x = Some u → session_ok s x u))) with (ops := ops)
    as (s' & out' & E' & Hnd & Hs).
  - split.
    + intros r. unfold room_members, init. cbn [rooms]. rewrite lookup_empty. apply NoDup_nil_2.
    + intros x u H. unfold init in H. cbn [users] in H. by rewrite lookup_empty in H.
  - intros o s0 s1 out0 _ [Hnd Hs] Hstep. split.
    + by eapply NoDup_room_members_step.
    + by eapply session_ok_step.
  - rewrite E in E'. injection E' as <- <-.
    exists s, out. split; [exact E|]. split.
    + unfold api_rooms. by rewrite dom_fmap_L.
    + intros r n Hn. unfold api_rooms in Hn. rewrite lookup_fmap in Hn.
      assert (n = userCount s r) as ->.
      { unfold userCount, room_members. destruct (rooms s !! r); by simplify_eq/=. }
      split; [|by apply size_sessions_in].
      unfold userCount. by rewrite size_list_to_set.
Qed.

(** ** X7: an error means that nothing happened *)



(** ** X8: typing indicators *)

Lemma inbox_nil_iff y out : (∀ e, e ∈ out → y ∉ em_to e) → inbox y out = [].
Proof.
  induction out as [|e out IH]; intros H; [done|].
  rewrite inbox_cons, decide_False by (apply H, list_elem_of_here).
  apply IH. intros e' He'. apply H. by apply list_elem_of_further.
Qed.

(** X8. In a running server a [typing] event never changes the state and
    never comes back to its sender.  From a socket without a session it emits
    nothing; from a socket with a session, every other member of the room
    the event names whose connection is open receives exactly one
    [userTyping] with the session's id and display name and the flag as
    sent. *)
Theorem typing_reaches_the_others s x p :
  reachable s →
  ∃ out,
    on_typing x p s = Done tt s out ∧
    inbox x out = [] ∧
    match users s !! x with
    | Some u =>
        ∀ r y, typing_room p = Some r → y ≠ x → live_member s r y →
               inbox y out = [userTyping (user_id u) (user_username u) (typing_isTyping p)]
    | None => out = []
    end.
Proof.
  intros (_ & _ & Hm)%reachable_wf. rewrite on_typing_eq.
  destruct (users s !! x) as [u|]; [|by eexists].
  eexists. split; [reflexivity|]. split.
  - rewrite inbox_cons. cbn [em_to]. rewrite decide_False by set_solver. reflexivity.
  - intros r y Hr Hne [Hy [rs Hrs]]. rewrite inbox_cons. cbn [em_to em_event].
    rewrite decide_True; [reflexivity|].
    apply elem_of_difference. split; [|set_solver].
    rewrite Hr. apply elem_of_room_sockets. exists rs. split; [done|]. by eapply Hm.
Qed.

Lemma typing_reaches_the_others_witness :
  ∃ out,
    on_typing "s1" (mkTyping (Some "general") true) (state_of alice_bob_in_general)
      = Done tt (state_of alice_bob_in_general) out ∧
    inbox "s1" out = [] ∧
    match users (state_of alice_bob_in_general) !! "s1" with
    | Some u =>
        ∀ r y, typing_room (mkTyping (Some "general") true) = Some r → y ≠ "s1" →
               live_member (state_of alice_bob_in_general) r y →
               inbox y out = [userTyping (user_id u) (user_username u)
                                (typing_isTyping (mkTyping (Some "general") true))]
    | None => out = []
    end.
Proof.
  apply (typing_reaches_the_others (state_of alice_bob_in_general) "s1"
           (mkTyping (Some "general") true)).
  apply reachable_state_of; [vm_compute; reflexivity | vm_compute; eexists; reflexivity].
Defined.

(** ** X9: joining and leaving again *)

Lemma set_delete_not_in x l : x ∉ l → set_delete x l = l.
Proof.
  unfold set_delete. induction l as [|y l IH]; intros Hx; [done|].
  apply not_elem_of_cons in Hx as [Hne Hx].
  rewrite filter_cons_True by done. by rewrite IH.
Qed.

Lemma set_delete_set_add x l : x ∉ l → set_delete x (set_add x l) = l.
Proof.
  intros Hx. unfold set_add. rewrite bool_decide_eq_false_2 by done.
  unfold set_delete. rewrite filter_app.
  rewrite filter_cons_False by (intros H; by apply H).
  rewrite filter_nil, app_nil_r. by apply set_delete_not_in.
Qed.

(** X9. A socket without a session that is not in the member set of a room
    joins that room and disconnects.  Afterwards the registry and the member
    set of the room are as before, the other rooms and logs are untouched,
    the socket is closed, and the log of the room has grown by exactly the
    join message and the leave message, in that order. *)
Theorem join_then_disconnect s x userId msgId now p u r msgId' now' :
  users s !! x = None → x ∉ room_members s r → join_accepted p = Some (u, r) →
  ∃ s' out,
    run [Join x userId msgId now p; Disconnect x msgId' now'] s = Done tt s' out ∧
    users s' = users s ∧
    room_members s' r = room_members s r ∧
    (∀ k, k ≠ r → rooms s' !! k = rooms s !! k) ∧
    room_log s' r
      = room_log s r ++ [welcome_message msgId u now; leave_message msgId' u now'] ∧
    (∀ k, k ≠ r → messages s' !! k = messages s !! k) ∧
    sids s' = delete x (sids s).
Proof.
  intros Hu Hx Hp.
  assert (E1 : dispatch (Join x userId msgId now p) s
               = Done tt (join_state x userId msgId now u r s)
                   (output_of (dispatch (Join x userId msgId now p) s))).
  { cbn [dispatch]. by rewrite (on_join_accepted _ _ _ _ _ _ _ _ Hp), join_body_eq. }
  assert (E2 : dispatch (Disconnect x msgId' now') (join_state x userId msgId now u r s)
               = Done tt
                   {| users := delete x (<[x := mkUser userId u r x]> (users s));
                      rooms := <[r := set_delete x (set_add x (room_members s r))]>
                                 (<[r := set_add x (room_members s r)]> (rooms s));
                      messages :=
                        <[r := (room_log s r ++ [welcome_message msgId u now]) ++
                               [leave_message msgId' u now']]>
                          (<[r := room_log s r ++ [welcome_message msgId u now]]> (messages s));
                      sids := delete x (alter (λ rs, rs ∪ {[r]}) x (sids s)) |}
                   (output_of (dispatch (Disconnect x msgId' now')
                                 (join_state x userId msgId now u r s)))).
  { rewrite dispatch_disconnect_eq, on_disconnect_eq.
    cbn [with_sids join_state users rooms messages sids].
    rewrite lookup_insert_eq. cbn zeta. cbn [user_room user_username].
    rewrite !lookup_insert_eq.
    by rewrite (proj2 (set_has_true x (set_add x (room_members s r))))
      by (apply elem_of_set_add; by left). }
  rewrite run_cons, E1, run_cons, E2. cbn [run mret M_ret].
  eexists _, _. split; [reflexivity|]. cbn [users rooms messages sids].
  split; [by rewrite delete_insert_eq, delete_id|].
  split.
  { unfold room_members at 1. cbn [rooms]. rewrite lookup_insert_eq. cbn.
    by apply set_delete_set_add. }
  split; [intros k Hk; by rewrite !lookup_insert_ne|].
  split.
  { unfold room_log at 1. cbn [messages]. rewrite lookup_insert_eq. cbn.
    by rewrite <- app_assoc. }
  split; [intros k Hk; by rewrite !lookup_insert_ne|].
  by rewrite delete_alter_eq.
Qed.

Lemma join_then_disconnect_witness :
  ∃ s' out,
    run [Join "s2" "u2" "m2" at_10 (mkJoin (Some "Bob") (Some "general"));
         Disconnect "s2" "m3" at_10] (state_of (alice_in_general ++ [Connect "s2"]))
      = Done tt s' out ∧
    users s' = users (state_of (alice_in_general ++ [Connect "s2"])) ∧
    room_members s' "general"
      = room_members (state_of (alice_in_general ++ [Connect "s2"])) "general" ∧
    (∀ k, k ≠ "general" →
          rooms s' !! k = rooms (state_of (alice_in_general ++ [Connect "s2"])) !! k) ∧
    room_log s' "general"
      = room_log (state_of (alice_in_general ++ [Connect "s2"])) "general" ++
        [welcome_message "m2" "Bob" at_10; leave_message "m3" "Bob" at_10] ∧
    (∀ k, k ≠ "general" →
          messages s' !! k = messages (state_of (alice_in_general ++ [Connect "s2"])) !! k) ∧
    sids s' = delete "s2" (sids (state_of (alice_in_general ++ [Connect "s2"]))).
Proof.
  apply (join_then_disconnect (state_of (alice_in_general ++ [Connect "s2"]))
           "s2" "u2" "m2" at_10 (mkJoin (Some "Bob") (Some "general")) "Bob" "general"
           "m3" at_10).
  - vm_compute. reflexivity.
  - apply (proj1 (bool_decide_eq_false _)). vm_compute. reflexivity.
  - vm_compute. reflexivity.
Defined.

(** ** X10: a socket that is not connected receives nothing *)

Lemma not_elem_of_room_sockets a r y : a !! y = None → y ∉ room_sockets a r.
Proof.
  intros Hy. destruct r as [r|]; [|apply not_elem_of_empty].
  intros (rs & Hrs & _)%elem_of_room_sockets. congruence.
Qed.

(** X10. A socket that is not connected (it never connected, or it has
    disconnected) receives none of the events of an operation of another
    socket, whatever the state and whatever rooms still list it. *)
Theorem closed_socket_receives_nothing o s s' out y :
  sids s !! y = None → op_socket o ≠ y → dispatch o s = Done tt s' out →
  inbox y out = [].
Proof.
  intros Hy Hne Hstep%done_step. apply inbox_nil_iff. intros e He.
  destruct Hstep as [x s|x uid mid now p u r s Hp|x uid mid now p msg s Hp
                |x mid now p u t r l s Hu Ht Hr Hl|x mid now p msg s Hrej
                |x p u s Hu|x p s Hu|x mid now u l lg s Hu Hl Hx Hlg
                |x mid now u s Hu Hx|x mid now s Hu]; cbn [op_socket] in Hne.
  all: repeat match goal with
       | H : _ ∈ [] |- _ => by apply not_elem_of_nil in H
       | H : _ ∈ reports _ _ |- _ => unfold reports in H
       | H : _ ∈ _ :: _ |- _ => apply elem_of_cons in H as [->|H]
       end; cbn [em_to]; try set_solver.
  - intros [Hin _]%elem_of_difference. revert Hin. apply not_elem_of_room_sockets.
    cbn [join_state sids]. by rewrite lookup_alter_ne.
  - by apply not_elem_of_room_sockets.
  - intros [Hin _]%elem_of_difference. revert Hin. by apply not_elem_of_room_sockets.
  - intros [Hin _]%elem_of_difference. revert Hin. apply not_elem_of_room_sockets.
    by rewrite lookup_delete_ne.
Qed.

Lemma closed_socket_receives_nothing_witness :
  inbox "s1"
    (output_of (dispatch (Join "s2" "u2" "m2" at_10 (mkJoin (Some "Bob") (Some "general")))
                  (state_of (alice_rejoins ++ [Disconnect "s1" "m4" at_10; Connect "s2"]))))
  = [].
Proof.
  apply (closed_socket_receives_nothing
           (Join "s2" "u2" "m2" at_10 (mkJoin (Some "Bob") (Some "general")))
           (state_of (alice_rejoins ++ [Disconnect "s1" "m4" at_10; Connect "s2"]))
           (join_state "s2" "u2" "m2" at_10 "Bob" "general"
              (state_of (alice_rejoins ++ [Disconnect "s1" "m4" at_10; Connect "s2"])))).
  - vm_compute. reflexivity.
  - discriminate.
  - vm_compute. reflexivity.
Defined.

(** ** X11: a room's events stay in the room *)

Lemma subscribed_step o s s' out :
  (∀ y rs r, sids s !! y = Some rs → r ∈ rs → r = y ∨ y ∈ room_members s r) →
  step o s s' out →
  ∀ y rs r, sids s' !! y = Some rs → r ∈ rs → r = y ∨ y ∈ room_members s' r.
Proof.
  intros HP.
  destruct 1 as [x s|x uid mid now p u r0 s Hp|x uid mid now p msg s Hp
                |x mid now p u t r0 l s Hu Ht Hr Hl|x mid now p msg s Hrej
                |x p u s Hu|x p s Hu|x mid now u l lg s Hu Hl Hx Hlg
                |x mid now u s Hu Hx|x mid now s Hu]; try exact HP.
  - intros y rs r Hy Hr. cbn [with_sids sids] in Hy.
    change (room_members (with_sids _ s) r) with (room_members s r).
    destruct (decide (x = y)) as [->|Hxy].
    + rewrite lookup_insert_eq in Hy. injection Hy as <-. left. set_solver.
    + rewrite lookup_insert_ne in Hy by done. by eapply HP.
  - intros y rs r Hy Hr. cbn [join_state sids] in Hy. rewrite room_members_join.
    assert (Hgrow : r = y ∨ y ∈ room_members s r →
              r = y ∨ y ∈ (if decide (r = r0) then set_add x (room_members s r0)
                           else room_members s r)).
    { intros [?|Hin]; [by left|]. right. case_decide as Hk; [|done].
      rewrite <- Hk. apply elem_of_set_add. by right. }
    destruct (decide (x = y)) as [->|Hxy].
    + rewrite lookup_alter_eq in Hy.
      destruct (sids s !! y) as [rs0|] eqn:Hy0; [|done]. injection Hy as <-.
      apply elem_of_union in Hr as [Hr|Hr%elem_of_singleton].
      * apply Hgrow. by eapply HP.
      * right. rewrite decide_True by done. apply elem_of_set_add. by left.
    + rewrite lookup_alter_ne in Hy by done. apply Hgrow. by eapply HP.
  - intros y rs r Hy Hr. cbn [sids] in Hy.
    destruct (decide (x = y)) as [->|Hxy]; [by rewrite lookup_delete_eq in Hy|].
    rewrite lookup_delete_ne in Hy by done.
    destruct (HP y rs r Hy Hr) as [?|Hin]; [by left|]. right.
    unfold room_members. cbn [rooms].
    destruct (decide (r = user_room u)) as [->|Hk].
    + rewrite lookup_insert_eq. cbn. apply elem_of_set_delete. split; [|done].
      unfold room_members in Hin. by rewrite Hl in Hin.
    + by rewrite lookup_insert_ne.
  - intros y rs r Hy Hr. cbn [with_users with_sids sids] in Hy.
    destruct (decide (x = y)) as [->|Hxy]; [by rewrite lookup_delete_eq in Hy|].
    rewrite lookup_delete_ne in Hy by done. by eapply HP.
  - intros y rs r Hy Hr. cbn [with_sids sids] in Hy.
    destruct (decide (x = y)) as [->|Hxy]; [by rewrite lookup_delete_eq in Hy|].
    rewrite lookup_delete_ne in Hy by done. by eapply HP.
Qed.

(** X11. After any sequence of operations, whatever operation comes next: an
    event it addresses to a room reaches only sockets that are in the member
    set of that room once the operation is done, or whose own id is the name
    of the room (the room Socket.io gives every socket), and if it was sent
    with [socket.to] it does not reach the socket of the operation. *)
Theorem room_events_stay_in_the_room ops o :
  ∃ s out s' out',
    run ops init = Done tt s out ∧
    dispatch o s = Done tt s' out' ∧
    ∀ e y r, e ∈ out' → target_room (em_target e) = Some r → y ∈ em_to e →
             (r = y ∨ y ∈ room_members s' r) ∧
             (∀ x, em_target e = ToRoomExcept (Some r) x → y ≠ x ∧ x = op_socket o).
Proof.
  destruct (run_invariant (λ s,
      ∀ y rs r, sids s !! y = Some rs → r ∈ rs → r = y ∨ y ∈ room_members s r))
    with (ops := ops) as (s & out & E & HP).
  { intros y rs r H. unfold init in H. cbn [sids] in H. by rewrite lookup_empty in H. }
  { intros o0 s0 s1 out0 _ HP0 Hstep. by eapply subscribed_step. }
  destruct (run_total ops init logs_cover_init) as (s0 & out0 & E0 & Hc & _).
  rewrite E in E0. injection E0 as <- <-.
  destruct (dispatch_step o s Hc) as (s' & out' & E' & Hstep).
  exists s, out, s', out'. split; [exact E|]. split; [exact E'|].
  pose proof (subscribed_step o s s' out' HP Hstep) as HP'.
  intros e y r He Hr Hy.
  destruct Hstep as [x s|x uid mid now p u r0 s Hp|x uid mid now p msg s Hp
                |x mid now p u t r0 l s Hu Ht Hr0 Hl|x mid now p msg s Hrej
                |x p u s Hu|x p s Hu|x mid now u l lg s Hu Hl Hx Hlg
                |x mid now u s Hu Hx|x mid now s Hu].
  all: repeat match goal with
       | H : _ ∈ [] |- _ => by apply not_elem_of_nil in H
       | H : _ ∈ reports _ _ |- _ => unfold reports in H
       | H : _ ∈ _ :: _ |- _ => apply elem_of_cons in H as [->|H]
       end; cbn [em_target em_to target_room] in *; try discriminate Hr.
  - injection Hr as ->. apply elem_of_difference in Hy as [Hy Hne].
    apply elem_of_room_sockets in Hy as (rs & Hrs & Hin). split; [by eapply HP'|].
    intros x' [= <-]. split; [set_solver | done].
  - injection Hr as ->. apply elem_of_room_sockets in Hy as (rs & Hrs & Hin).
    split; [by eapply HP'|]. intros x' [=].
  - apply elem_of_difference in Hy as [Hy Hne]. rewrite Hr in Hy.
    apply elem_of_room_sockets in Hy as (rs & Hrs & Hin). split; [by eapply HP'|].
    intros x' [= _ <-]. split; [set_solver | done].
  - injection Hr as <-. apply elem_of_difference in Hy as [Hy Hne].
    apply elem_of_room_sockets in Hy as (rs & Hrs & Hin). split; [by eapply HP'|].
    intros x' [= <-]. split; [set_solver | done].
Qed.

(** ** X12: a join counts a socket once *)

(** X12. A join that passes validation raises the [userCount] of its room by
    one when the socket was not yet in the member set, and leaves it as it is
    when the socket already was (a second join to the same room); the counts
    of the other rooms do not change. *)
Theorem join_counts_socket_once s x userId msgId now p u r :
  join_accepted p = Some (u, r) →
  ∃ s' out,
    on_join x userId msgId now p s = Done tt s' out ∧
    userCount s' r
      = (if decide (x ∈ room_members s r) then userCount s r else S (userCount s r)) ∧
    ∀ k, k ≠ r → userCount s' k = userCount s k.
Proof.
  intros Hp. rewrite (on_join_accepted _ _ _ _ _ _ _ _ Hp), join_body_eq. cbn zeta.
  eexists _, _. split; [reflexivity|]. unfold userCount. split.
  - rewrite room_members_join, decide_True by done. unfold set_add.
    case_decide as Hx.
    + by rewrite bool_decide_eq_true_2.
    + rewrite bool_decide_eq_false_2 by done. rewrite length_app. cbn. lia.
  - intros k Hk. by rewrite room_members_join, decide_False.
Qed.

Lemma join_counts_socket_once_witness :
  ∃ s' out,
    on_join "s1" "u3" "m3" at_10 (mkJoin (Some "Alice") (Some "general"))
      (state_of alice_bob_in_general) = Done tt s' out ∧
    userCount s' "general"
      = (if decide ("s1" ∈ room_members (state_of alice_bob_in_general) "general")
         then userCount (state_of alice_bob_in_general) "general"
         else S (userCount (state_of alice_bob_in_general) "general")) ∧
    ∀ k, k ≠ "general" → userCount s' k = userCount (state_of alice_bob_in_general) k.
Proof.
  apply (join_counts_socket_once (state_of alice_bob_in_general) "s1" "u3" "m3" at_10
           (mkJoin (Some "Alice") (Some "general")) "Alice" "general").
  vm_compute. reflexivity.
Defined.

(** ** X13: what a disconnect removes *)

(** X13. In a running server a disconnect ends normally; afterwards the
    socket has no session and is not connected, it is no longer in the member
    set of the room its session named, and for every other socket the
    session and the membership of every room are as before. *)
Theorem disconnect_removes_the_session s x msgId now :
  reachable s →
  ∃ s' out,
    dispatch (Disconnect x msgId now) s = Done tt s' out ∧
    users s' = delete x (users s) ∧
    sids s' = delete x (sids s) ∧
    (∀ u, users s !! x = Some u → x ∉ room_members s' (user_room u)) ∧
    (∀ r y, y ≠ x → y ∈ room_members s' r ↔ y ∈ room_members s r).
Proof.
  intros (Hc & _ & _)%reachable_wf.
  destruct (dispatch_step (Disconnect x msgId now) s Hc) as (s' & out & E & Hstep).
  exists s', out. split; [exact E|].
  inversion Hstep as [| | | | | | |x0 m0 n0 u l lg s0 Hu Hl Hx Hlg
                      |x0 m0 n0 u s0 Hu Hx|x0 m0 n0 s0 Hu]; subst.
  - cbn [users sids]. split; [done|]. split; [done|].
    assert (Hmem : ∀ k y, y ∈ room_members
              {| users := delete x (users s);
                 rooms := <[user_room u := set_delete x l]> (rooms s);
                 messages :=
                   <[user_room u := lg ++ [leave_message msgId (user_username u) now]]>
                     (messages s);
                 sids := delete x (sids s) |} k ↔
              y ∈ room_members s k ∧ (k = user_room u → y ≠ x)).
    { intros k y. unfold room_members. cbn [rooms].
      destruct (decide (k = user_room u)) as [->|Hk].
      - rewrite lookup_insert_eq, Hl. cbn. rewrite elem_of_set_delete. naive_solver.
      - rewrite lookup_insert_ne by done. naive_solver. }
    split.
    + intros u' Hu'. rewrite Hu in Hu'. injection Hu' as <-.
      rewrite Hmem. naive_solver.
    + intros r y Hne. rewrite Hmem. naive_solver.
  - cbn [with_users with_sids users sids]. split; [done|]. split; [done|]. split.
    + intros u' Hu'. rewrite Hu in Hu'. by injection Hu' as <-.
    + done.
  - cbn [with_sids users sids]. split; [by rewrite delete_id|]. split; [done|]. split.
    + intros u' Hu'. congruence.
    + done.
Qed.

Lemma disconnect_removes_the_session_witness :
  ∃ s' out,
    dispatch (Disconnect "s1" "m3" at_10) (state_of alice_bob_in_general) = Done tt s' out ∧
    users s' = delete "s1" (users (state_of alice_bob_in_general)) ∧
    sids s' = delete "s1" (sids (state_of alice_bob_in_general)) ∧
    (∀ u, users (state_of alice_bob_in_general) !! "s1" = Some u →
          "s1" ∉ room_members s' (user_room u)) ∧
    (∀ r y, y ≠ "s1" →
            y ∈ room_members s' r ↔ y ∈ room_members (state_of alice_bob_in_general) r).
Proof.
  apply (disconnect_removes_the_session (state_of alice_bob_in_general) "s1" "m3" at_10).
  apply reachable_state_of; [vm_compute; reflexivity | vm_compute; eexists; reflexivity].
Defined.

(** ** X14: only a join creates a room *)

(** X14. After a sequence of operations in which no join that passes
    validation names room [r], the room does not exist: it has no member
    set and no log, [GET /api/rooms] does not list it and
    [GET /api/rooms/:room/messages] answers with the empty list.  Sends,
    typing events and disconnects never create a room. *)
Theorem only_a_join_creates_a_room ops r :
  Forall (λ o, match o with
               | Join _ _ _ _ p => ∀ u, join_accepted p ≠ Some (u, r)
               | _ => True
               end) ops →
  ∃ s out,
    run ops init = Done tt s out ∧
    rooms s !! r = None ∧ messages s !! r = None ∧
    api_rooms s !! r = None ∧ room_log s r = [].
Proof.
  intros Hops.
  assert (H : ∀ s, logs_cover s → rooms s !! r = None → messages s !! r = None →
            ∃ s' out, run ops s = Done tt s' out ∧
                      rooms s' !! r = None ∧ messages s' !! r = None).
  { induction Hops as [|o ops Ho _ IH]; intros s Hc Hr Hm.
    - by eexists _, _.
    - destruct (dispatch_total o s Hc) as (s1 & o1 & E1 & Hc1 & _).
      assert (rooms s1 !! r = None ∧ messages s1 !! r = None) as [Hr1 Hm1].
      { pose proof (done_step _ _ _ _ E1) as Hstep.
        destruct Hstep as [x s|x uid mid now p u r0 s Hp|x uid mid now p msg s Hp
                |x mid now p u t r0 l s Hu Ht Hr0 Hl|x mid now p msg s Hrej
                |x p u s Hu|x p s Hu|x mid now u l lg s Hu Hl Hx Hlg
                |x mid now u s Hu Hx|x mid now s Hu]; try done.
        - assert (r0 ≠ r) by (intros ->; by apply (Ho u)).
          cbn [join_state rooms messages]. by rewrite !lookup_insert_ne.
        - assert (r0 ≠ r) by congruence.
          cbn [with_messages rooms messages]. by rewrite lookup_insert_ne.
        - assert (user_room u ≠ r) by congruence.
          cbn [rooms messages]. by rewrite !lookup_insert_ne. }
      destruct (IH s1 Hc1 Hr1 Hm1) as (s2 & o2 & E2 & Hr2 & Hm2).
      rewrite run_cons, E1, E2. by eexists _, _. }
  destruct (H init logs_cover_init) as (s & out & E & Hr & Hm); [done | done |].
  exists s, out. split; [exact E|]. split; [exact Hr|]. split; [exact Hm|]. split.
  - unfold api_rooms. by rewrite lookup_fmap, Hr.
  - unfold room_log. by rewrite Hm.
Qed.

Lemma only_a_join_creates_a_room_witness :
  ∃ s out,
    run (alice_in_general ++
         [ChatMessage "s1" "m2" at_10 (mkChat (Some "hi") (Some "random"));
          Typing "s1" (mkTyping (Some "random") true);
          Join "s1" "u2" "m3" at_10 (mkJoin (Some "") (Some "random"));
          Disconnect "s1" "m4" at_10]) init = Done tt s out ∧
    rooms s !! "random" = None ∧ messages s !! "random" = None ∧
    api_rooms s !! "random" = None ∧ room_log s "random" = [].
Proof.
  apply (only_a_join_creates_a_room
           (alice_in_general ++
            [ChatMessage "s1" "m2" at_10 (mkChat (Some "hi") (Some "random"));
             Typing "s1" (mkTyping (Some "random") true);
             Join "s1" "u2" "m3" at_10 (mkJoin (Some "") (Some "random"));
             Disconnect "s1" "m4" at_10]) "random").
  repeat constructor; intros u; vm_compute; discriminate.
Defined.

(** ** X15: who hears of a disconnect *)

(** X15. In a running server, when a socket with a session disconnects,
    every other member of the session's room whose connection is open
    receives exactly one [userLeft] with the session's id and display name
    and the system leave message, and the disconnecting socket receives
    nothing. *)
Theorem disconnect_notifies_the_room s x msgId now u :
  reachable s → users s !! x = Some u →
  ∃ s' out,
    dispatch (Disconnect x msgId now) s = Done tt s' out ∧
    inbox x out = [] ∧
    ∀ y, y ≠ x → live_member s (user_room u) y →
         inbox y out = [userLeft (user_id u) (user_username u)
                          (leave_message msgId (user_username u) now)].
Proof.
  intros (Hc & Hs & Hm)%reachable_wf Hu.
  destruct (Hs x u Hu) as [Hin _].
  destruct (member_room_some _ _ _ Hin) as (l & Hl & Hxl).
  destruct (Hc (user_room u)) as [lg Hlg]; [by rewrite Hl|].
  rewrite dispatch_disconnect_eq, on_disconnect_eq.
  cbn [with_sids users rooms messages sids]. rewrite Hu. cbn zeta.
  rewrite Hl, Hlg, (proj2 (set_has_true x l) Hxl).
  eexists _, _. split; [reflexivity|]. split.
  - rewrite inbox_cons. cbn [em_to]. rewrite decide_False by set_solver. reflexivity.
  - intros y Hne [Hy [rs Hrs]]. rewrite inbox_cons. cbn [em_to em_event].
    rewrite decide_True; [reflexivity|].
    apply elem_of_difference. split; [|set_solver].
    apply elem_of_room_sockets. exists rs. split; [by rewrite lookup_delete_ne|].
    by eapply Hm.
Qed.

Lemma disconnect_notifies_the_room_witness :
  ∃ s' out,
    dispatch (Disconnect "s2" "m3" at_10) (state_of alice_bob_in_general) = Done tt s' out ∧
    inbox "s2" out = [] ∧
    ∀ y, y ≠ "s2" →
         live_member (state_of alice_bob_in_general)
           (user_room (mkUser "u2" "Bob" "general" "s2")) y →
         inbox y out
         = [userLeft (user_id (mkUser "u2" "Bob" "general" "s2"))
              (user_username (mkUser "u2" "Bob" "general" "s2"))
              (leave_message "m3" (user_username (mkUser "u2" "Bob" "general" "s2")) at_10)].
Proof.
  apply (disconnect_notifies_the_room (state_of alice_bob_in_general) "s2" "m3" at_10
           (mkUser "u2" "Bob" "general" "s2")).
  - apply reachable_state_of; [vm_compute; reflexivity | vm_compute; eexists; reflexivity].
  - vm_compute. reflexivity.
Defined.
